(** * PFERD: crawler orchestration, crawler configuration and the simple
    authenticator

    A shallow embedding of [PFERD/crawl/crawler.py] and
    [PFERD/authenticators/simple.py].  Python objects that are mutated in
    place (the crawler, the authenticator, the terminal, the logger) are
    threaded through explicitly as a state; a Python exception is the
    [Raise] branch of a [result]; collaborators defined in modules that are
    not part of the sources (the output directory, the transformer, pathlib,
    configparser's number parsing) are parameters, and the event loop of
    asyncio is a small model after the documentation of the standard
    library. *)

From Stdlib Require Import ZArith PrimFloat DecimalString.
From stdpp Require Import gmap strings list.

Local Open Scope Z_scope.

(** ** Python values, exceptions and results *)

Module Py.

(** A value handed to [Section.invalid_value]: the crawler section passes
    integers, floats and strings. *)
Inductive config_value :=
| IntValue (z : Z)
| FloatValue (f : float)
| StrValue (v : string).

(** The exceptions that occur in the modelled code.  An instance of a
    subclass counts as an instance of its base class, as in an [except]
    clause.  [OtherException] stands for every class not named here. *)
Inductive exn :=
| CrawlWarning (msg : string)
| CrawlError (msg : string)
| OutputDirError (msg : string)
| MarkDuplicateError (msg : string)
| MarkConflictError (msg : string)
| RuntimeError (msg : string)
| ValueError (msg : string)
| EOFError
| CancelledError
| AuthException (msg : string)
| ConfigOptionError (key : string) (value : config_value) (reason : string)
| OtherException (cls msg : string).

(** [str(e)] *)
Definition str (e : exn) : string :=
  match e with
  | CrawlWarning msg | CrawlError msg | OutputDirError msg
  | MarkDuplicateError msg | MarkConflictError msg | RuntimeError msg
  | ValueError msg | AuthException msg | OtherException _ msg => msg
  | ConfigOptionError key _ reason => key +:+ ": " +:+ reason
  | EOFError | CancelledError => ""
  end.

Inductive result (A : Type) : Type :=
| Return (a : A)
| Raise (e : exn).
Arguments Return {A} a.
Arguments Raise {A} e.

#[export] Instance result_ret : MRet result := λ A a, Return a.
#[export] Instance result_bind : MBind result := λ A B k r,
  match r with
  | Return a => k a
  | Raise e => Raise e
  end.

(** [s[n:]] *)
Fixpoint string_drop (n : nat) (s : string) : string :=
  match n, s with
  | O, _ => s
  | S n', String _ s' => string_drop n' s'
  | S _, EmptyString => EmptyString
  end.

(** Stateful code: the objects a function mutates are the state, and the
    state reached when an exception is raised is kept (Python does not roll
    back mutations). *)
Definition M (S A : Type) : Type := S → result A * S.

#[export] Instance M_ret {S} : MRet (M S) := λ A a st, (Return a, st).
#[export] Instance M_bind {S} : MBind (M S) := λ A B k m st,
  match m st with
  | (Return a, st') => k a st'
  | (Raise e, st') => (Raise e, st')
  end.

Definition raise {S A} (e : exn) : M S A := λ st, (Raise e, st).

(** [try: body / except: handler] *)
Definition try_except {S A} (body : M S A) (handler : exn → M S A) : M S A :=
  λ st,
    match body st with
    | (Return a, st') => (Return a, st')
    | (Raise e, st') => handler e st'
    end.

(** [with ctx: body], for a context manager that does not swallow
    exceptions: [leave] runs on every exit of the block. *)
Definition with_context {S A} (enter leave : S → S) (body : M S A) : M S A :=
  λ st, let '(r, st') := body (enter st) in (r, leave st').

End Py.

Import Py.

(** ** [CrawlerSection]: the per-crawler configuration section *)

Module CrawlerSection.

(** [self.s] is the configparser section proxy: the option names of the
    section with their raw string values. *)
Record t := { s : gmap string string }.

(** What the section methods use from outside the sources. *)
Class ConfigEnv := {
  (** Python's [int(raw)] and [float(raw)] as configparser applies them;
      [None] is the [ValueError] case. *)
  parse_int : string → option Z;
  parse_float : string → option float;
  (** [pathlib.Path]: construction from a string, [expanduser] (which raises
      when no home directory can be determined) and the [/] operator. *)
  Path : Type;
  Path_of_string : string → Path;
  expanduser : Path → result Path;
  path_join : Path → Path → Path;
  (** [Redownload.from_string] and [OnConflict.from_string] of the output
      directory module, and [str.capitalize]. *)
  Redownload : Type;
  OnConflict : Type;
  Redownload_from_string : string → result Redownload;
  OnConflict_from_string : string → result OnConflict;
  capitalize : string → string
}.

Section Methods.

Context `{ConfigEnv}.

(** [self.s.get(key, fallback)] *)
Definition get (self : t) (key fallback : string) : string :=
  default fallback (s self !! key).

(** [self.s.getint(key, fallback=d)]: the default when the option is
    absent, otherwise the parsed integer.  [conv] injects an integer into
    the type of the default ([fallback=None] makes the result optional). *)
Definition getint {A} (conv : Z → A) (self : t) (key : string) (fallback : A)
  : result A :=
  match s self !! key with
  | None => Return fallback
  | Some raw =>
      match parse_int raw with
      | Some z => Return (conv z)
      | None => Raise (ValueError ("invalid literal for int(): " +:+ raw))
      end
  end.

(** [self.s.getfloat(key, fallback=d)] *)
Definition getfloat (self : t) (key : string) (fallback : float)
  : result float :=
  match s self !! key with
  | None => Return fallback
  | Some raw =>
      match parse_float raw with
      | Some f => Return f
      | None => Raise (ValueError ("could not convert string to float: " +:+ raw))
      end
  end.

(** Modelled from the spec: [Section.invalid_value] is defined in the
    configuration module, which is not among the sources.  Each constraint
    violation is a configuration error naming the field, the offending
    value, and the reason; the call does not return. *)
Definition invalid_value {A} (self : t) (key : string) (value : config_value)
    (reason : string) : result A :=
  Raise (ConfigOptionError key value reason).

Definition output_dir (self : t) (name : string) : result Path :=
  let name :=
    if String.prefix "crawl:" name
    then string_drop (String.length "crawl:") name
    else name in
  expanduser (Path_of_string (get self "output_dir" name)).

Definition redownload (self : t) : result Redownload :=
  let value := get self "redownload" "never-smart" in
  match Redownload_from_string value with
  | Raise (ValueError msg) =>
      invalid_value self "redownload" (StrValue value) (capitalize msg)
  | r => r
  end.

Definition on_conflict (self : t) : result OnConflict :=
  let value := get self "on_conflict" "prompt" in
  match OnConflict_from_string value with
  | Raise (ValueError msg) =>
      invalid_value self "on_conflict" (StrValue value) (capitalize msg)
  | r => r
  end.

Definition transform (self : t) : string := get self "transform" "".

Definition max_concurrent_tasks (self : t) : result Z :=
  value ← getint id self "max_concurrent_tasks" 1;
  if value <=? 0
  then invalid_value self "max_concurrent_tasks" (IntValue value)
         "Must be greater than 0"
  else Return value.

Definition max_concurrent_downloads (self : t) : result Z :=
  tasks ← max_concurrent_tasks self;
  value ← getint Some self "max_concurrent_downloads" None;
  match value with
  | None => Return tasks
  | Some value =>
      if value <=? 0
      then invalid_value self "max_concurrent_downloads" (IntValue value)
             "Must be greater than 0"
      else if value >? tasks
      then invalid_value self "max_concurrent_downloads" (IntValue value)
             "Must not be greater than max_concurrent_tasks"
      else Return value
  end.

Definition delay_between_tasks (self : t) : result float :=
  value ← getfloat self "delay_between_tasks" 0%float;
  if PrimFloat.ltb value 0%float
  then invalid_value self "delay_between_tasks" (FloatValue value)
         "Must not be negative"
  else Return value.

(** [auth].  [Section.missing_value] belongs to the configuration module,
    which is not among the sources: it does not return, and the exception it
    raises for a key is the parameter [missing_value].  The dictionary maps
    the names of the auth sections to their authenticators. *)
Definition auth {Auth : Type} (missing_value : string → exn) (self : t)
    (authenticators : gmap string Auth) : result Auth :=
  match s self !! "auth" with
  | None => Raise (missing_value "auth")
  | Some value =>
      match authenticators !! value with
      | None =>
          invalid_value self "auth" (StrValue value)
            "No such auth section exists"
      | Some auth => Return auth
      end
  end.

End Methods.

End CrawlerSection.

(** ** [SimpleAuthenticator] *)

Module SimpleAuthSection.

Record t := { s : gmap string string }.

Definition username (self : t) : option string := s self !! "username".
Definition password (self : t) : option string := s self !! "password".

End SimpleAuthSection.

Module SimpleAuthenticator.

(** A Python object as far as this class looks at it: whether it [is None],
    and how an f-string renders it. *)
Record pyobj := { is_None : bool; format : string }.

(** The class assigns [_username], [_password], [_username_fixed] and
    [_password_fixed], yet [__init__] and [credentials] also read
    [self.username] and [self.password].  Those two names are not
    assigned by this class: they resolve on the base class [Authenticator],
    which is not among the sources, so what the lookup yields is a
    parameter.  (An authenticator only exists if the lookups succeed, since
    [__init__] performs them.) *)
Class Authenticator := {
  attr_username : pyobj;
  attr_password : pyobj
}.

(** The fields of the object. *)
Record t := {
  _username : option string;
  _password : option string;
  _username_fixed : bool;
  _password_fixed : bool
}.

(** What happens on the terminal. *)
Inductive io :=
| exclusive_output_enter
| exclusive_output_exit
| ainput_prompt (prompt : string)
| agetpass_prompt (prompt : string)
| printed (line : string).

(** The authenticator together with the terminal: the lines the user will
    type, and what has been shown so far. *)
Record state := {
  self : t;
  stdin : list string;
  tty : list io
}.

Definition set_self (a : t) (st : state) : state :=
  {| self := a; stdin := stdin st; tty := tty st |}.

Definition show (ev : io) (st : state) : state :=
  {| self := self st; stdin := stdin st; tty := tty st ++ [ev] |}.

Definition set__username (v : option string) : M state unit :=
  λ st, (Return tt,
         set_self {| _username := v; _password := _password (self st);
                     _username_fixed := _username_fixed (self st);
                     _password_fixed := _password_fixed (self st) |} st).

Definition set__password (v : option string) : M state unit :=
  λ st, (Return tt,
         set_self {| _username := _username (self st); _password := v;
                     _username_fixed := _username_fixed (self st);
                     _password_fixed := _password_fixed (self st) |} st).

Definition get_self : M state t := λ st, (Return (self st), st).

(** Reading one line after showing [prompt]; end of input raises
    [EOFError], as [input] and [getpass.getpass] do. *)
Definition read_line (ev : io) : M state string :=
  λ st,
    match stdin st with
    | line :: rest =>
        (Return line,
         {| self := self st; stdin := rest; tty := tty st ++ [ev] |})
    | [] => (Raise EOFError, show ev st)
    end.

(** [utils.ainput] and [utils.agetpass] *)
Definition ainput (prompt : string) : M state string :=
  read_line (ainput_prompt prompt).

Definition agetpass (prompt : string) : M state string :=
  read_line (agetpass_prompt prompt).

Definition print (line : string) : M state unit :=
  λ st, (Return tt, show (printed line) st).

(** [async with self.conductor.exclusive_output(): body] *)
Definition exclusive_output {A} (body : M state A) : M state A :=
  with_context (show exclusive_output_enter) (show exclusive_output_exit) body.

Section Methods.

Context `{Authenticator}.

Definition __init__ (section : SimpleAuthSection.t) : t :=
  {| _username := SimpleAuthSection.username section;
     _password := SimpleAuthSection.password section;
     _username_fixed := negb (is_None attr_username);
     _password_fixed := negb (is_None attr_password) |}.

Definition credentials : M state (option string * option string) :=
  a ← get_self;
  if bool_decide (_username a ≠ None) && bool_decide (_password a ≠ None)
  then mret (_username a, _password a)
  else
    exclusive_output (
      a ← get_self;
      (match _username a with
       | None => v ← ainput "Username: "; set__username (Some v)
       | Some _ => print ("Username: " +:+ format attr_username)
       end);;
      a ← get_self;
      (match _password a with
       | None => v ← agetpass "Password: "; set__password (Some v)
       | Some _ => mret tt
       end);;
      a ← get_self;
      mret (_username a, _password a)).

Definition invalidate_credentials : M state unit :=
  a ← get_self;
  if _username_fixed a && _password_fixed a
  then raise (AuthException "Configured credentials are invalid")
  else
    (if negb (_username_fixed a) then set__username None else mret tt);;
    a ← get_self;
    (if negb (_password_fixed a) then set__password None else mret tt).

Definition invalidate_username : M state unit :=
  a ← get_self;
  if _username_fixed a
  then raise (AuthException "Configured username is invalid")
  else set__username None.

Definition invalidate_password : M state unit :=
  a ← get_self;
  if _password_fixed a
  then raise (AuthException "Configured password is invalid")
  else set__password None.

(** The prompts [credentials] issues when called in [st]: the input
    requests among what it adds to the terminal. *)
Definition is_prompt (ev : io) : option string :=
  match ev with
  | ainput_prompt p | agetpass_prompt p => Some p
  | _ => None
  end.

Definition credentials_prompts (st : state) : list string :=
  omap is_prompt (drop (length (tty st)) (tty (credentials st).2)).

(** The values [credentials] has to ask for in [st], as the prompts it uses
    for them. *)
Definition missing (st : state) : list string :=
  (if bool_decide (_username (self st) = None) then ["Username: "] else []) ++
  (if bool_decide (_password (self st) = None) then ["Password: "] else []).

(** The object with the user name and/or the password cleared. *)
Definition forget (user pass : bool) (a : t) : t :=
  {| _username := if user then None else _username a;
     _password := if pass then None else _password a;
     _username_fixed := _username_fixed a;
     _password_fixed := _password_fixed a |}.

(** The state in which [credentials] returns [(u, p)] after reading the
    lines before [rest] and showing [shown]. *)
Definition answered (st : state) (u p : string) (rest : list string)
    (shown : list io) : state :=
  {| self := {| _username := Some u; _password := Some p;
                _username_fixed := _username_fixed (self st);
                _password_fixed := _password_fixed (self st) |};
     stdin := rest;
     tty := tty st ++ shown |}.

End Methods.

End SimpleAuthenticator.

(** ** [utils.prompt_yes_no] *)

Module Utils.

Import SimpleAuthenticator.

Section PromptYesNo.

(** [str.strip().lower()] *)
Variable normalize : string → string.

Definition query_suffix (default : option bool) : string :=
  match default with
  | Some true => " [Y/n] "
  | Some false => " [y/N] "
  | None => " [y/n] "
  end.

(** The [while True] loop, at most [fuel] times round. *)
Fixpoint ask (fuel : nat) (query : string) (default : option bool)
  : M state bool :=
  match fuel with
  | O => raise (RuntimeError "out of fuel")
  | S fuel =>
      line ← ainput query;
      let response := normalize line in
      if bool_decide (response = "y") then mret true
      else if bool_decide (response = "n") then mret false
      else
        match default with
        | Some d =>
            if bool_decide (response = "") then mret d
            else print "Please answer with 'y' or 'n'.";; ask fuel query default
        | None =>
            print "Please answer with 'y' or 'n'.";; ask fuel query default
        end
  end.

(** Every turn of the loop reads a line or ends at the end of the input, so
    one turn more than there are lines is enough. *)
Definition prompt_yes_no (query : string) (default : option bool)
  : M state bool :=
  λ st, ask (S (length (stdin st))) (query +:+ query_suffix default) default st.

(** What a normalized response means: yes, no, or ask again. *)
Definition answer (default : option bool) (response : string) : option bool :=
  if bool_decide (response = "y") then Some true
  else if bool_decide (response = "n") then Some false
  else if bool_decide (response = "") then default
  else None.

(** What the terminal shows for a line that is not an answer. *)
Definition asked_again (query : string) : list io :=
  [ainput_prompt query; printed "Please answer with 'y' or 'n'."].

End PromptYesNo.

End Utils.

(** ** Using an authenticator over time *)

Module Session.

Import SimpleAuthenticator.

Section Session.

Context `{Authenticator}.

(** The calls a consumer of the authenticator makes. *)
Inductive call :=
| call_credentials
| call_invalidate_credentials
| call_invalidate_username
| call_invalidate_password.

(** One call, whatever its outcome, and a sequence of calls. *)
Definition perform (st : state) (c : call) : state :=
  match c with
  | call_credentials => (credentials st).2
  | call_invalidate_credentials => (invalidate_credentials st).2
  | call_invalidate_username => (invalidate_username st).2
  | call_invalidate_password => (invalidate_password st).2
  end.

Definition session (cs : list call) (st : state) : state :=
  foldl perform st cs.

(** The authenticator as constructed, in front of a fresh terminal. *)
Definition fresh (section : SimpleAuthSection.t) (lines : list string)
  : state :=
  {| self := __init__ section; stdin := lines; tty := [] |}.

(** What a computation adds to the terminal. *)
Definition shown {A} (m : M state A) (st : state) : list io :=
  drop (length (tty st)) (tty (m st).2).

End Session.

End Session.

(** ** [Crawler] and the [noncritical] / [anoncritical] wrappers *)

Module Crawler.

Import CrawlerSection.

(** [Limiter(task_limit=..., download_limit=..., task_delay=...)] *)
Record Limiter := {
  task_limit : Z;
  download_limit : Z;
  task_delay : float
}.

(** The collaborators of the crawler that are defined outside the sources:
    the transformer, the output directory with the five methods the crawler
    calls on it, the global configuration and the path formatter.  A method
    of the output directory takes the directory's state and gives its
    outcome and the new state. *)
Class CrawlerEnv `{ConfigEnv} := {
  PurePath : Type;
  datetime : Type;
  fmt_path : PurePath → string;
  Config : Type;
  working_dir : Config → result Path;
  Transformer : Type;
  Transformer_new : string → result Transformer;
  Transformer_transform : Transformer → PurePath → option PurePath;
  FileSinkToken : Type;
  OutputDirectory : Type;
  OutputDirectory_new : Path → Redownload → OnConflict → OutputDirectory;
  OutputDirectory_prepare : OutputDirectory → result unit * OutputDirectory;
  OutputDirectory_load_prev_report :
    OutputDirectory → result unit * OutputDirectory;
  OutputDirectory_download :
    PurePath → PurePath → option datetime → option Redownload →
    option OnConflict → OutputDirectory →
    result (option FileSinkToken) * OutputDirectory;
  OutputDirectory_cleanup : OutputDirectory → result unit * OutputDirectory;
  OutputDirectory_store_report :
    OutputDirectory → result unit * OutputDirectory
}.

Section Crawler.

Context `{CrawlerEnv}.

Inductive CrawlToken :=
| mkCrawlToken (_limiter : Limiter) (_path : PurePath).

Inductive DownloadToken :=
| mkDownloadToken (_limiter : Limiter) (_fs_token : FileSinkToken)
    (_path : PurePath).

(** The fields of a crawler object. *)
Record t := {
  name : string;
  error_free : bool;
  _limiter : Limiter;
  _transformer : Transformer;
  _output_dir : OutputDirectory
}.

(** Calls the crawler makes on its output directory. *)
Inductive od_call :=
| prepare
| load_prev_report
| download_call (path transformed_path : PurePath) (mtime : option datetime)
    (redownload : option Redownload) (on_conflict : option OnConflict)
| cleanup
| store_report.

(** What can be observed of a run, in the order it happens: the messages
    handed to the global logger, the progress display being switched on and
    off, and the calls on the output directory. *)
Inductive event :=
| explain_topic (msg : string)
| explain (msg : string)
| warn (msg : string)
| show_progress_enter
| show_progress_exit
| called (c : od_call).

Record state := {
  self : t;
  log : list event
}.

Definition emit (ev : event) (st : state) : state :=
  {| self := self st; log := log st ++ [ev] |}.

Definition log_explain_topic (msg : string) : M state unit :=
  λ st, (Return tt, emit (explain_topic msg) st).

Definition log_explain (msg : string) : M state unit :=
  λ st, (Return tt, emit (explain msg) st).

Definition log_warn (msg : string) : M state unit :=
  λ st, (Return tt, emit (warn msg) st).

Definition get_self : M state t := λ st, (Return (self st), st).

Definition with_error_free (b : bool) (st : state) : state :=
  {| self := {| name := name (self st); error_free := b;
                _limiter := _limiter (self st);
                _transformer := _transformer (self st);
                _output_dir := _output_dir (self st) |};
     log := log st |}.

(** [crawler.error_free = b] *)
Definition set_error_free (b : bool) : M state unit :=
  λ st, (Return tt, with_error_free b st).

Definition set__output_dir (od : OutputDirectory) (st : state) : state :=
  {| self := {| name := name (self st); error_free := error_free (self st);
                _limiter := _limiter (self st);
                _transformer := _transformer (self st);
                _output_dir := od |};
     log := log st |}.

(** [self._output_dir.m(...)]: the call is observed, the method runs on the
    directory owned by the crawler and leaves it in its new state. *)
Definition call_output_dir {A} (c : od_call)
    (m : OutputDirectory → result A * OutputDirectory) : M state A :=
  λ st,
    let '(r, od) := m (_output_dir (self st)) in
    (r, set__output_dir od (emit (called c) st)).

(** *** The wrappers *)

(** A positional argument of a wrapped call: the crawler object itself (the
    [self] of a method call) or anything else. *)
Inductive arg :=
| crawler_object
| other_object (repr : string).

Definition kwargs := list (string * arg).

(** [args and isinstance(args[0], Crawler)] *)
Definition first_is_crawler (args : list arg) : bool :=
  match args with
  | crawler_object :: _ => true
  | _ => false
  end.

(** The classes of the first [except] clause of the wrappers. *)
Definition recoverable (e : exn) : bool :=
  match e with
  | CrawlWarning _ | OutputDirError _ | MarkDuplicateError _
  | MarkConflictError _ => true
  | _ => false
  end.

Definition wrapped := list arg → kwargs → M state unit.

Definition noncritical (f : wrapped) : wrapped :=
  λ args kw,
    if negb (first_is_crawler args)
    then raise (RuntimeError "@noncritical must only applied to Crawler methods")
    else
      try_except (f args kw)
        (λ e,
           if recoverable e
           then log_warn (str e);; set_error_free false
           else set_error_free false;; raise e).

(** The coroutine version: [await f(...)] in place of [f(...)].  Here
    [f] stands for a coroutine function, and what it does to the state is
    what has happened when the [await] is over, whatever else ran while the
    call was suspended.  (For [noncritical], [f] stands for an ordinary
    function.  The two kinds are not told apart by the type [wrapped], so
    nothing is to be read off the model for a wrapper applied to a function
    of the other kind, where Python fails at the [await] or never runs the
    body of the coroutine.) *)
Definition anoncritical (f : wrapped) : wrapped :=
  λ args kw,
    if negb (first_is_crawler args)
    then raise (RuntimeError "@anoncritical must only applied to Crawler methods")
    else
      try_except (f args kw)
        (λ e,
           if recoverable e
           then log_warn (str e);; set_error_free false
           else set_error_free false;; raise e).

(** *** The crawler *)

Definition __init__ (name : string) (section : CrawlerSection.t)
    (config : Config) : result t :=
  tasks ← max_concurrent_tasks section;
  downloads ← max_concurrent_downloads section;
  delay ← delay_between_tasks section;
  let limiter := {| task_limit := tasks; download_limit := downloads;
                    task_delay := delay |} in
  transformer ← Transformer_new (transform section);
  wd ← working_dir config;
  dir ← output_dir section name;
  redl ← redownload section;
  onc ← on_conflict section;
  mret {| name := name; error_free := true; _limiter := limiter;
          _transformer := transformer;
          _output_dir := OutputDirectory_new (path_join wd dir) redl onc |}.

Definition crawl (path : PurePath) : M state (option CrawlToken) :=
  log_explain_topic ("Decision: Crawl " +:+ fmt_path path);;
  c ← get_self;
  match Transformer_transform (_transformer c) path with
  | None => log_explain "Answer: No";; mret None
  | Some _ =>
      log_explain "Answer: Yes";; mret (Some (mkCrawlToken (_limiter c) path))
  end.

Definition download (path : PurePath) (mtime : option datetime)
    (redownload : option Redownload) (on_conflict : option OnConflict)
  : M state (option DownloadToken) :=
  log_explain_topic ("Decision: Download " +:+ fmt_path path);;
  c ← get_self;
  match Transformer_transform (_transformer c) path with
  | None => log_explain "Answer: No";; mret None
  | Some transformed_path =>
      fs_token ← call_output_dir
        (download_call path transformed_path mtime redownload on_conflict)
        (OutputDirectory_download path transformed_path mtime redownload
           on_conflict);
      match fs_token with
      | None => log_explain "Answer: No";; mret None
      | Some fs_token =>
          log_explain "Answer: Yes";;
          mret (Some (mkDownloadToken (_limiter c) fs_token path))
      end
  end.

Definition _cleanup : M state unit :=
  log_explain_topic "Decision: Clean up files";;
  c ← get_self;
  if error_free c
  then
    log_explain "No warnings or errors occurred during this run";;
    log_explain "Answer: Yes";;
    call_output_dir cleanup OutputDirectory_cleanup
  else
    log_explain "Warnings or errors occurred during this run";;
    log_explain "Answer: No".

(** [with log.show_progress(): body] *)
Definition show_progress {A} (body : M state A) : M state A :=
  with_context (emit show_progress_enter) (emit show_progress_exit) body.

(** [run], for a crawler whose abstract method is [_run]. *)
Definition run (_run : M state unit) : M state unit :=
  show_progress (
    call_output_dir prepare OutputDirectory_prepare;;
    call_output_dir load_prev_report OutputDirectory_load_prev_report;;
    _run;;
    _cleanup;;
    call_output_dir store_report OutputDirectory_store_report).

(** [run] from the moment the progress display is on up to the call of
    [_run]. *)
Definition startup : M state unit :=
  call_output_dir prepare OutputDirectory_prepare;;
  call_output_dir load_prev_report OutputDirectory_load_prev_report.

(** What [_cleanup] logs before it acts. *)
Definition cleanup_decision (answer : bool) : list event :=
  [explain_topic "Decision: Clean up files";
   explain (if answer
            then "No warnings or errors occurred during this run"
            else "Warnings or errors occurred during this run");
   explain (if answer then "Answer: Yes" else "Answer: No")].

Definition emit_all (evs : list event) (st : state) : state :=
  {| self := self st; log := log st ++ evs |}.

(** [m] never sets [error_free] back to true: from a state in which the
    flag is false it leaves the flag false. *)
Definition no_reset {A} (m : M state A) : Prop :=
  ∀ st, error_free (self st) = false → error_free (self (m st).2) = false.

(** What [m] adds to the log when run in [st]. *)
Definition logged {A} (m : M state A) (st : state) : list event :=
  drop (length (log st)) (log (m st).2).

End Crawler.

(** *** [Crawler.gather] *)

(** An awaitable handed to [gather]: a coroutine that gives control back to
    the event loop [suspensions] times and then ends with [outcome], a value
    or an exception. *)
Record awaitable (V : Type) := {
  suspensions : nat;
  outcome : result V
}.
Arguments suspensions {V} _.
Arguments outcome {V} _.
Arguments Build_awaitable {V} _ _.

(** An [asyncio] task.  A task that is not done holds the rest of its
    coroutine and whether its cancellation has been requested. *)
Inductive task (V : Type) :=
| pending (cancel_requested : bool) (rest : awaitable V)
| finished (value : V)
| failed (e : exn).
Arguments pending {V} cancel_requested rest.
Arguments finished {V} value.
Arguments failed {V} e.

(** [asyncio.ensure_future(aw)] *)
Definition ensure_future {V} (aw : awaitable V) : task V := pending false aw.

(** [task.done()] *)
Definition done {V} (t : task V) : bool :=
  match t with pending _ _ => false | _ => true end.

(** [task.cancel()].  On a task that is not done it only requests the
    cancellation: the task stays pending until the event loop runs it
    again. *)
Definition cancel {V} (t : task V) : task V :=
  match t with
  | pending _ rest => pending true rest
  | t => t
  end.

(** How a coroutine that has ended leaves its task. *)
Definition settled {V} (o : result V) : task V :=
  match o with
  | Return v => finished v
  | Raise e => failed e
  end.

(** One iteration of the event loop, for one task: a task that is not done
    runs up to its next suspension or to its end; if its cancellation has
    been requested, [CancelledError] is thrown into it instead, which ends
    it. *)
Definition advance {V} (t : task V) : task V :=
  match t with
  | pending true _ => failed CancelledError
  | pending false rest =>
      match suspensions rest with
      | O => settled (outcome rest)
      | S n => pending false {| suspensions := n; outcome := outcome rest |}
      end
  | t => t
  end.

(** The exception of the first task that has failed, if any. *)
Fixpoint first_failure {V} (tasks : list (task V)) : option exn :=
  match tasks with
  | [] => None
  | failed e :: _ => Some e
  | _ :: tasks => first_failure tasks
  end.

(** The results of the tasks, in order, if all have finished. *)
Fixpoint results_of {V} (tasks : list (task V)) : option (list V) :=
  match tasks with
  | [] => Some []
  | finished v :: tasks => (v ::.) <$> results_of tasks
  | _ :: _ => None
  end.

(** [await asyncio.gather( *tasks )], after the documentation of the
    standard library: while the awaiting coroutine sleeps the event loop
    runs the tasks; the first exception raised by a task is propagated to
    the awaiting coroutine, the other tasks being left to run; when all
    tasks have finished, the result is the list of their results, in order.
    [fuel] bounds the iterations of the loop. *)
Fixpoint await_gather {V} (fuel : nat) (tasks : list (task V))
  : result (list V) * list (task V) :=
  match first_failure tasks with
  | Some e => (Raise e, tasks)
  | None =>
      match results_of tasks with
      | Some results => (Return results, tasks)
      | None =>
          match fuel with
          | O => (Raise (RuntimeError "out of fuel"), tasks)
          | S fuel => await_gather fuel (advance <$> tasks)
          end
      end
  end.

(** [gather].  Every coroutine ends after one iteration more than it has
    suspensions, so the fuel given is enough.  [lag] is the number of
    iterations the loop runs the other tasks for between the failure of a
    task and the moment the coroutine that awaits is run again.  The
    [except] branch calls [cancel] on every task and raises at once. *)
Definition gather {V} (lag : nat) (awaitables : list (awaitable V))
  : result (list V) * list (task V) :=
  let tasks := ensure_future <$> awaitables in
  match await_gather (S (max_list (suspensions <$> awaitables))) tasks with
  | (Return results, tasks) => (Return results, tasks)
  | (Raise e, tasks) => (Raise e, cancel <$> Nat.iter lag (fmap advance) tasks)
  end.

(** The task made from an awaitable, [k] iterations of the loop later. *)
Definition after {V} (k : nat) (a : awaitable V) : task V :=
  if decide (k ≤ suspensions a)%nat
  then pending false {| suspensions := suspensions a - k;
                        outcome := outcome a |}
  else settled (outcome a).

(** The awaitable ends with an exception. *)
Definition fails {V} (a : awaitable V) : Prop :=
  ∃ e, outcome a = Raise e.

End Crawler.

(** ** A concrete environment

    One instance of the collaborators, used to run the definitions on
    concrete inputs. *)

Module Example.

Import CrawlerSection Crawler.

(** Decimal integers only. *)
Definition parse_decimal (raw : string) : option Z :=
  Z.of_int <$> NilEmpty.int_of_string raw.

Inductive redownload_policy := never | never_smart | always | always_smart.
Inductive on_conflict_policy := prompt | overwrite | skip.

Definition redownload_from_string (v : string) : result redownload_policy :=
  if bool_decide (v = "never") then Return never
  else if bool_decide (v = "never-smart") then Return never_smart
  else if bool_decide (v = "always") then Return always
  else if bool_decide (v = "always-smart") then Return always_smart
  else Raise (ValueError "not a redownload policy").

Definition on_conflict_from_string (v : string) : result on_conflict_policy :=
  if bool_decide (v = "prompt") then Return prompt
  else if bool_decide (v = "overwrite") then Return overwrite
  else if bool_decide (v = "skip") then Return skip
  else Raise (ValueError "not a conflict policy").

(** Paths are plain strings; [~] alone is the only form that is expanded. *)
#[export] Instance config_env : ConfigEnv := {|
  parse_int := parse_decimal;
  parse_float := λ _, None;
  Path := string;
  Path_of_string := id;
  expanduser := λ p, Return (if bool_decide (p = "~") then "/home/user" else p);
  path_join := λ a b, a +:+ "/" +:+ b;
  Redownload := redownload_policy;
  OnConflict := on_conflict_policy;
  Redownload_from_string := redownload_from_string;
  OnConflict_from_string := on_conflict_from_string;
  capitalize := id
|}.

(** A transformer as an ordered list of rules: the first rule for a path
    decides, [None] excludes the path, and a path without a rule passes
    unchanged.  The rule expression of a section is read as the one path to
    exclude. *)
Definition rules := list (string * option string).

Fixpoint apply_rules (rs : rules) (path : string) : option string :=
  match rs with
  | [] => Some path
  | (p, r) :: rs => if bool_decide (p = path) then r else apply_rules rs path
  end.

(** The output directory: the local files, the report of this run, the
    report of the previous run as loaded, and the report on disk. *)
Record output_directory := {
  files : gset string;
  report : gset string;
  prev_report : option (gset string);
  stored_report : option (gset string)
}.

(** Modelled from the spec: [OutputDirectory.cleanup] (the output directory
    module is not among the sources).  For every path present in the
    previous report but absent from the current report, delete the
    corresponding local file. *)
Definition od_cleanup (od : output_directory)
  : result unit * output_directory :=
  (Return tt,
   {| files := files od ∖ (default ∅ (prev_report od) ∖ report od);
      report := report od;
      prev_report := prev_report od;
      stored_report := stored_report od |}).

(** Modelled from the spec: [OutputDirectory.store_report].  Persists the
    current report, replacing the stored previous report. *)
Definition od_store_report (od : output_directory)
  : result unit * output_directory :=
  (Return tt,
   {| files := files od; report := report od; prev_report := prev_report od;
      stored_report := Some (report od) |}).

(** Modelled from the spec: [OutputDirectory.prepare] initializes an empty
    current-run report, and [load_prev_report] loads the most recently
    persisted report, if any. *)
Definition od_prepare (od : output_directory)
  : result unit * output_directory :=
  (Return tt,
   {| files := files od; report := ∅; prev_report := prev_report od;
      stored_report := stored_report od |}).

Definition od_load_prev_report (od : output_directory)
  : result unit * output_directory :=
  (Return tt,
   {| files := files od; report := report od;
      prev_report := stored_report od;
      stored_report := stored_report od |}).

(** Modelled from the spec: [OutputDirectory.download], steps 1 to 4 under
    the policy [never]: a path recorded twice raises the duplicate marking;
    a path without a local file is approved (the token names the
    destination); an existing file is kept. *)
Definition od_download (path transformed_path : string) (mtime : option Z)
    (redownload : option redownload_policy)
    (on_conflict : option on_conflict_policy) (od : output_directory)
  : result (option string) * output_directory :=
  if bool_decide (transformed_path ∈ report od)
  then (Raise (MarkDuplicateError transformed_path), od)
  else
    let od' := {| files := files od;
                  report := {[transformed_path]} ∪ report od;
                  prev_report := prev_report od;
                  stored_report := stored_report od |} in
    if bool_decide (transformed_path ∈ files od)
    then (Return None, od')
    else (Return (Some transformed_path), od').

#[export] Instance crawler_env : CrawlerEnv := {|
  PurePath := string;
  datetime := Z;
  fmt_path := id;
  Config := string;
  working_dir := λ c, Return c;
  Transformer := rules;
  Transformer_new := λ rule, Return [(rule, None)];
  Transformer_transform := apply_rules;
  FileSinkToken := string;
  OutputDirectory := output_directory;
  OutputDirectory_new := λ _ _ _,
    {| files := ∅; report := ∅; prev_report := None; stored_report := None |};
  OutputDirectory_prepare := od_prepare;
  OutputDirectory_load_prev_report := od_load_prev_report;
  OutputDirectory_download := od_download;
  OutputDirectory_cleanup := od_cleanup;
  OutputDirectory_store_report := od_store_report
|}.

(** Two sections: one with both limits set, one without any option. *)
Definition two_of_four : CrawlerSection.t :=
  {| CrawlerSection.s :=
       <["max_concurrent_tasks" := "4"]>
         (<["max_concurrent_downloads" := "2"]> ∅) |}.

Definition no_output_dir : CrawlerSection.t := {| CrawlerSection.s := ∅ |}.

(** A crawl with two branches: the first fails at once, the second would
    return after five suspensions. *)
Definition one_failed : list (awaitable nat) :=
  [{| suspensions := 0; outcome := Raise (CrawlError "login failed") |};
   {| suspensions := 5; outcome := Return 1%nat |}].

(** Two branches that both return. *)
Definition both_fine : list (awaitable nat) :=
  [{| suspensions := 3; outcome := Return 1%nat |};
   {| suspensions := 1; outcome := Return 2%nat |}].

(** A crawler whose output directory still holds [old.pdf], a file the
    stored report of the previous run lists. *)
Definition demo : Crawler.state :=
  {| Crawler.self :=
       {| name := "crawl:demo"; error_free := true;
          _limiter := {| task_limit := 1; download_limit := 1;
                         task_delay := 0%float |};
          _transformer := [("secret.txt", None)];
          _output_dir :=
            {| files := {["old.pdf"]}; report := ∅; prev_report := None;
               stored_report := Some {["old.pdf"]} |} |};
     Crawler.log := [] |}.

(** Three strategies: one that raises the hard crawl failure, one whose
    only leaf operation fails with a warning under [anoncritical], and one
    that finds nothing to do. *)
Definition failing_run : M Crawler.state unit :=
  raise (CrawlError "login failed").

Definition page_missing : wrapped :=
  λ _ _, raise (CrawlWarning "page missing").

Definition warned_run : M Crawler.state unit :=
  mret tt;; anoncritical page_missing [crawler_object] [];; mret tt.

Definition empty_run : M Crawler.state unit := mret tt.

(** A path the transformer of [demo] excludes, and arguments for a
    download. *)
Definition secret : PurePath := "secret.txt".
Definition at_seven : option datetime := Some 7.
Definition force : option Redownload := Some always.
Definition replace : option OnConflict := Some overwrite.

(** The global configuration is its working directory. *)
Definition work : Config := "/work".

Definition demo_section : CrawlerSection.t :=
  {| CrawlerSection.s := <["transform" := "secret.txt"]> ∅ |}.

(** A base class on which [username] and [password] are methods: the
    lookups yield bound methods, which are not [None]. *)
#[export] Instance authenticator : SimpleAuthenticator.Authenticator := {|
  SimpleAuthenticator.attr_username :=
    {| SimpleAuthenticator.is_None := false;
       SimpleAuthenticator.format := "<bound method Authenticator.username>" |};
  SimpleAuthenticator.attr_password :=
    {| SimpleAuthenticator.is_None := false;
       SimpleAuthenticator.format := "<bound method Authenticator.password>" |}
|}.

(** The user name comes from the configuration, the password was typed. *)
Definition alice : SimpleAuthenticator.state :=
  {| SimpleAuthenticator.self :=
       {| SimpleAuthenticator._username := Some "alice";
          SimpleAuthenticator._password := Some "guess";
          SimpleAuthenticator._username_fixed := true;
          SimpleAuthenticator._password_fixed := false |};
     SimpleAuthenticator.stdin := ["second guess"];
     SimpleAuthenticator.tty := [] |}.

End Example.

(** ** More concrete inputs *)

Module Scenarios.

Import CrawlerSection Crawler Example.

(** Sections with one option each that does not pass. *)
Definition no_tasks : CrawlerSection.t :=
  {| CrawlerSection.s := <["max_concurrent_tasks" := "0"]> ∅ |}.

Definition sometimes : CrawlerSection.t :=
  {| CrawlerSection.s := <["redownload" := "sometimes"]> ∅ |}.

Definition with_auth : CrawlerSection.t :=
  {| CrawlerSection.s := <["auth" := "auth:campus"]> ∅ |}.

(** The registered authenticators, by the name of their section. *)
Definition authenticators : gmap string nat := {["auth:campus" := 7%nat]}.

(** An environment that reads two floating-point texts. *)
Definition float_env : ConfigEnv := {|
  parse_int := parse_decimal;
  parse_float := λ raw,
    if bool_decide (raw = "-1.5") then Some (-1.5)%float
    else if bool_decide (raw = "nan") then Some nan
    else None;
  Path := string;
  Path_of_string := id;
  expanduser := λ p, Return p;
  path_join := λ a b, a +:+ "/" +:+ b;
  Redownload := redownload_policy;
  OnConflict := on_conflict_policy;
  Redownload_from_string := redownload_from_string;
  OnConflict_from_string := on_conflict_from_string;
  capitalize := id
|}.

Definition hasty : CrawlerSection.t :=
  {| CrawlerSection.s := <["delay_between_tasks" := "-1.5"]> ∅ |}.

(** A path the transformer of [demo] keeps. *)
Definition lecture : PurePath := "lecture.pdf".

(** [demo] after [lecture] has been approved for download once. *)
Definition downloading : Crawler.state :=
  (download lecture at_seven force replace demo).2.

(** A strategy that fails for good. *)
Definition login_failed : wrapped := λ _ _, raise (CrawlError "login failed").

(** An output directory that cannot be prepared, and a crawler on it. *)
Definition broken_env : CrawlerEnv := {|
  PurePath := string;
  datetime := Z;
  fmt_path := id;
  Config := string;
  working_dir := λ c, Return c;
  Transformer := rules;
  Transformer_new := λ rule, Return [(rule, None)];
  Transformer_transform := apply_rules;
  FileSinkToken := string;
  OutputDirectory := output_directory;
  OutputDirectory_new := λ _ _ _,
    {| files := ∅; report := ∅; prev_report := None; stored_report := None |};
  OutputDirectory_prepare := λ od, (Raise (OutputDirError "not a directory"), od);
  OutputDirectory_load_prev_report := od_load_prev_report;
  OutputDirectory_download := od_download;
  OutputDirectory_cleanup := od_cleanup;
  OutputDirectory_store_report := od_store_report
|}.

Definition stuck : Crawler.state (H0 := broken_env) :=
  Crawler.Build_state (H0 := broken_env)
    (Crawler.Build_t (H0 := broken_env) "crawl:stuck" true
       {| task_limit := 1; download_limit := 1; task_delay := 0%float |}
       ([] : rules)
       {| files := ∅; report := ∅; prev_report := None;
          stored_report := None |})
    [].

(** Stripping blanks at both ends and lowering the letters A to Z. *)
Definition lower (c : Ascii.ascii) : Ascii.ascii :=
  let n := Ascii.nat_of_ascii c in
  if bool_decide (65 ≤ n ≤ 90)%nat then Ascii.ascii_of_nat (n + 32) else c.

Definition is_blank (c : Ascii.ascii) : bool :=
  bool_decide (Ascii.nat_of_ascii c ∈ [32; 9; 10; 13]%nat).

Fixpoint drop_blanks (l : list Ascii.ascii) : list Ascii.ascii :=
  match l with
  | c :: l' => if is_blank c then drop_blanks l' else l
  | [] => []
  end.

Definition strip_lower (line : string) : string :=
  String.string_of_list_ascii
    (lower <$>
       reverse (drop_blanks (reverse (drop_blanks (String.list_ascii_of_string line))))).

(** An auth section without user name and password, and one that gives the
    user name. *)
Definition unconfigured : SimpleAuthSection.t :=
  {| SimpleAuthSection.s := ∅ |}.

Definition configured : SimpleAuthSection.t :=
  {| SimpleAuthSection.s := {["username" := "alice"]} |}.

(** A terminal on which the user will type three lines. *)
Definition asking : SimpleAuthenticator.state :=
  {| SimpleAuthenticator.self := SimpleAuthenticator.self alice;
     SimpleAuthenticator.stdin := ["maybe"; "  Y "; "n"];
     SimpleAuthenticator.tty := [] |}.

(** Nobody knows anything yet, and only the user name will be typed. *)
Definition nobody : SimpleAuthenticator.state :=
  {| SimpleAuthenticator.self :=
       {| SimpleAuthenticator._username := None;
          SimpleAuthenticator._password := None;
          SimpleAuthenticator._username_fixed := false;
          SimpleAuthenticator._password_fixed := false |};
     SimpleAuthenticator.stdin := ["bob"];
     SimpleAuthenticator.tty := [] |}.

End Scenarios.

(** * Properties *)

(** ** The configuration section *)

Module CrawlerSectionSpec.

Import CrawlerSection.

Lemma string_drop_app (p rest : string) :
  string_drop (String.length p) (p +:+ rest) = rest.
Proof. induction p as [|a p IH]; simpl; auto. Qed.

Lemma prefix_app (p rest : string) : String.prefix p (p +:+ rest) = true.
Proof.
  induction p as [|a p IH]; simpl.
  - by destruct rest.
  - destruct (Ascii.ascii_dec a a); [exact IH | congruence].
Qed.

Section Facts.

Context `{ConfigEnv}.

Lemma max_concurrent_tasks_positive (self : t) (tasks : Z) :
  max_concurrent_tasks self = Return tasks → 0 < tasks.
Proof.
  unfold max_concurrent_tasks, invalid_value.
  destruct (getint id self "max_concurrent_tasks" 1) as [v|e]; simpl;
    [|discriminate].
  destruct (Z.leb_spec v 0); [discriminate|].
  intros [= <-]. lia.
Qed.

(** A failure of [max_concurrent_tasks] is also the failure of
    [max_concurrent_downloads]. *)
Lemma max_concurrent_downloads_tasks_invalid (self : t) (e : exn) :
  max_concurrent_tasks self = Raise e →
  max_concurrent_downloads self = Raise e.
Proof. unfold max_concurrent_downloads. by intros ->. Qed.

(** C6.  Where [max_concurrent_tasks] has the value [tasks]: reading
    [max_concurrent_downloads] gives [tasks] when the option is absent; when
    the option holds the integer [v], a [v <= 0] and a [v > tasks] each raise
    the configuration error that names the field, the value [v] and the
    reason, and any other [v] is returned unchanged. *)
Theorem max_concurrent_downloads_spec (self : t) (tasks : Z) :
  max_concurrent_tasks self = Return tasks →
  (s self !! "max_concurrent_downloads" = None →
   max_concurrent_downloads self = Return tasks) ∧
  (∀ raw v,
     s self !! "max_concurrent_downloads" = Some raw →
     parse_int raw = Some v →
     (v ≤ 0 →
      max_concurrent_downloads self =
        Raise (ConfigOptionError "max_concurrent_downloads" (IntValue v)
                 "Must be greater than 0")) ∧
     (v > tasks →
      max_concurrent_downloads self =
        Raise (ConfigOptionError "max_concurrent_downloads" (IntValue v)
                 "Must not be greater than max_concurrent_tasks")) ∧
     (0 < v ≤ tasks → max_concurrent_downloads self = Return v)).
Proof.
  intros Htasks.
  pose proof (max_concurrent_tasks_positive _ _ Htasks) as Hpos.
  unfold max_concurrent_downloads, getint, invalid_value.
  rewrite Htasks; simpl.
  split.
  - by intros ->.
  - intros raw v -> ->; simpl.
    repeat split; intros Hv.
    + destruct (Z.leb_spec v 0); [done | lia].
    + destruct (Z.leb_spec v 0); [lia|].
      destruct (Z.gtb_spec v tasks); [done | lia].
    + destruct (Z.leb_spec v 0); [lia|].
      destruct (Z.gtb_spec v tasks); [lia | done].
Qed.

(** C10.  An explicitly configured [output_dir] is used as it is (with user
    expansion) whatever the name; without one, a name that starts with
    [crawl:] gives the directory named by the rest of the name, and any
    other name gives the directory of that name. *)
Theorem output_dir_spec (self : t) (name : string) :
  (∀ v, s self !! "output_dir" = Some v →
        output_dir self name = expanduser (Path_of_string v)) ∧
  (s self !! "output_dir" = None →
   (∀ rest, name = "crawl:" +:+ rest →
            output_dir self name = expanduser (Path_of_string rest)) ∧
   (String.prefix "crawl:" name = false →
    output_dir self name = expanduser (Path_of_string name))).
Proof.
  unfold output_dir, get. split.
  - by intros v ->.
  - intros Hnone. split.
    + intros rest ->.
      by rewrite Hnone, prefix_app, string_drop_app.
    + intros ->. by rewrite Hnone.
Qed.

End Facts.

Import Example.

Lemma max_concurrent_downloads_spec_witness :
  max_concurrent_tasks two_of_four = Return 4 ∧
  max_concurrent_downloads two_of_four = Return 2.
Proof.
  assert (Ht : max_concurrent_tasks two_of_four = Return 4)
    by (vm_compute; reflexivity).
  split; [exact Ht|].
  destruct (max_concurrent_downloads_spec two_of_four 4 Ht) as [_ Hv].
  destruct (Hv "2" 2) as (_ & _ & Hok);
    [vm_compute; reflexivity | vm_compute; reflexivity |].
  apply Hok. lia.
Defined.

Lemma output_dir_spec_witness :
  output_dir no_output_dir "crawl:lectures" = Return "lectures" ∧
  output_dir no_output_dir "lectures" = Return "lectures".
Proof.
  destruct (output_dir_spec no_output_dir "crawl:lectures") as [_ Hd].
  destruct (output_dir_spec no_output_dir "lectures") as [_ Hd'].
  split.
  - destruct Hd as [Hp _]; [vm_compute; reflexivity|].
    apply (Hp "lectures"). reflexivity.
  - destruct Hd' as [_ Hn]; [vm_compute; reflexivity|].
    apply Hn. vm_compute; reflexivity.
Defined.

End CrawlerSectionSpec.

(** ** The simple authenticator *)

Module SimpleAuthenticatorSpec.

Import SimpleAuthenticator.

Create HintDb auth discriminated.

#[local] Hint Unfold mbind mret M_bind M_ret raise with_context get_self
  set__username set__password set_self show read_line ainput agetpass print
  exclusive_output : auth.

(** Runs the monadic code of a goal on the state it is applied to. *)
Ltac run_auth := autounfold with auth; simpl.

Section Facts.

Context `{Authenticator}.

(** What [credentials] does, by which of the two values are known. *)
Lemma credentials_cases (st : state) :
  match _username (self st), _password (self st) with
  | Some u, Some p => credentials st = (Return (Some u, Some p), st)
  | None, Some p =>
      ∀ u rest, stdin st = u :: rest →
        credentials st =
          (Return (Some u, Some p),
           answered st u p rest
             [exclusive_output_enter; ainput_prompt "Username: ";
              exclusive_output_exit])
  | Some u, None =>
      ∀ p rest, stdin st = p :: rest →
        credentials st =
          (Return (Some u, Some p),
           answered st u p rest
             [exclusive_output_enter;
              printed ("Username: " +:+ format attr_username);
              agetpass_prompt "Password: "; exclusive_output_exit])
  | None, None =>
      ∀ u p rest, stdin st = u :: p :: rest →
        credentials st =
          (Return (Some u, Some p),
           answered st u p rest
             [exclusive_output_enter; ainput_prompt "Username: ";
              agetpass_prompt "Password: "; exclusive_output_exit])
  end.
Proof.
  destruct st as [[[u|] [p|] uf pf] inp out]; simpl.
  - reflexivity.
  - intros p rest ->. unfold credentials, answered; run_auth.
    by rewrite <- !app_assoc.
  - intros u rest ->. unfold credentials, answered; run_auth.
    by rewrite <- !app_assoc.
  - intros u p rest ->. unfold credentials, answered; run_auth.
    by rewrite <- !app_assoc.
Qed.

Lemma credentials_prompts_missing (st : state) :
  (length (missing st) ≤ length (stdin st))%nat →
  credentials_prompts st = missing st.
Proof.
  unfold credentials_prompts, missing, credentials.
  destruct st as [[[u|] [p|] uf pf] [|l1 [|l2 inp]] out]; run_auth;
    try lia; intros _;
    by rewrite <- ?app_assoc, ?drop_app_length, ?drop_all.
Qed.

(** The flags are set from the inherited attributes, whatever the section
    holds. *)
Lemma init_fixed_flags (section : SimpleAuthSection.t) :
  _username_fixed (__init__ section) = negb (is_None attr_username) ∧
  _password_fixed (__init__ section) = negb (is_None attr_password).
Proof. done. Qed.

(** C8.  When both values are known, [credentials] returns them, asks
    nothing and changes nothing.  Otherwise (the user answering) it asks
    exactly for the values that are missing and returns a pair without an
    absent component, in which a value that was known is kept.  Right after
    construction the missing values are those the configuration section
    does not give. *)
Theorem credentials_spec (st : state) :
  (∀ u p, _username (self st) = Some u → _password (self st) = Some p →
          credentials st = (Return (Some u, Some p), st) ∧
          credentials_prompts st = []) ∧
  ((length (missing st) ≤ length (stdin st))%nat →
   credentials_prompts st = missing st ∧
   ∃ u p, (credentials st).1 = Return (Some u, Some p) ∧
          _username (self (credentials st).2) = Some u ∧
          _password (self (credentials st).2) = Some p ∧
          (∀ u0, _username (self st) = Some u0 → u0 = u) ∧
          (∀ p0, _password (self st) = Some p0 → p0 = p)) ∧
  (∀ section inp,
     missing {| self := __init__ section; stdin := inp; tty := [] |} =
       (if bool_decide (SimpleAuthSection.username section = None)
        then ["Username: "] else []) ++
       (if bool_decide (SimpleAuthSection.password section = None)
        then ["Password: "] else [])).
Proof.
  split; [|split].
  - intros u p Hu Hp. pose proof (credentials_cases st) as Hc.
    rewrite Hu, Hp in Hc. split; [exact Hc|].
    unfold credentials_prompts. rewrite Hc; simpl. by rewrite drop_all.
  - intros Hin. split; [by apply credentials_prompts_missing|].
    unfold missing in Hin.
    destruct st as [[[u|] [p|] uf pf] [|l1 [|l2 inp]] out]; simpl in *;
      try lia.
    all: eexists _, _; repeat split; congruence.
  - done.
Qed.

(** X24.  In terms of the flags of the object: [invalidate_username] and
    [invalidate_password] raise the authentication error when the flag of
    the value is set and clear the value otherwise.
    [invalidate_credentials] raises only when both flags are set; otherwise
    it returns normally after clearing each value whose flag is not set, a
    flagged one being kept.  A cleared value is asked for by the next
    [credentials] (the user answering). *)
Theorem invalidate_spec (st : state) :
  invalidate_username st =
    (if _username_fixed (self st)
     then (Raise (AuthException "Configured username is invalid"), st)
     else (Return tt, set_self (forget true false (self st)) st)) ∧
  invalidate_password st =
    (if _password_fixed (self st)
     then (Raise (AuthException "Configured password is invalid"), st)
     else (Return tt, set_self (forget false true (self st)) st)) ∧
  invalidate_credentials st =
    (if _username_fixed (self st) && _password_fixed (self st)
     then (Raise (AuthException "Configured credentials are invalid"), st)
     else (Return tt,
           set_self (forget (negb (_username_fixed (self st)))
                       (negb (_password_fixed (self st))) (self st)) st)) ∧
  (∀ user pass,
     let st' := set_self (forget user pass (self st)) st in
     (length (missing st') ≤ length (stdin st'))%nat →
     (user = true → "Username: " ∈ credentials_prompts st') ∧
     (pass = true → "Password: " ∈ credentials_prompts st')).
Proof.
  split; [|split; [|split]].
  - unfold invalidate_username; run_auth.
    destruct st as [[u p [] pf] inp out]; reflexivity.
  - unfold invalidate_password; run_auth.
    destruct st as [[u p uf []] inp out]; reflexivity.
  - unfold invalidate_credentials; run_auth.
    destruct st as [[u p [] []] inp out]; reflexivity.
  - intros user pass st' Hlen.
    rewrite credentials_prompts_missing by done.
    unfold st', missing; simpl.
    split; intros ->; simpl; [|destruct user; simpl]; set_solver.
Qed.

(** C7, where the code departs from it.  The constructor takes the two
    flags from the inherited attributes [username] and [password], so what
    the section configures has no part in them, and one of the two halves of
    the claim fails whatever these attributes are.  If the attribute is not
    [None], a user name that was typed (the section gives none) counts as
    fixed: [invalidate_username] raises and leaves it in place.  If the
    attribute is [None], a user name given by the section does not count as
    fixed: [invalidate_username] clears it and raises nothing. *)
Theorem invalidate_ignores_configuration :
  let typed :=
    (credentials (Session.fresh Scenarios.unconfigured ["bob"; "pw"])).2 in
  let given := Session.fresh Scenarios.configured [] in
  SimpleAuthSection.username Scenarios.unconfigured = None ∧
  _username (self typed) = Some "bob" ∧
  SimpleAuthSection.username Scenarios.configured = Some "alice" ∧
  _username (self given) = Some "alice" ∧
  if is_None attr_username
  then invalidate_username given =
         (Return tt, set_self (forget true false (self given)) given)
  else invalidate_username typed =
         (Raise (AuthException "Configured username is invalid"), typed).
Proof.
  intros typed given. subst typed given.
  repeat (split; [reflexivity|]).
  unfold invalidate_username, credentials, Session.fresh, __init__.
  run_auth.
  by destruct (is_None attr_username).
Qed.

End Facts.

Import Example.

(** The failing input of C7 on a base class whose [username] and
    [password] are not [None]: nothing is configured, the user types both
    values, and then none of the three calls can invalidate them; the next
    [credentials] returns the typed pair without asking. *)
Lemma invalidate_ignores_configuration_witness :
  let typed :=
    (credentials (Session.fresh Scenarios.unconfigured ["bob"; "pw"])).2 in
  invalidate_username typed =
    (Raise (AuthException "Configured username is invalid"), typed) ∧
  invalidate_password typed =
    (Raise (AuthException "Configured password is invalid"), typed) ∧
  invalidate_credentials typed =
    (Raise (AuthException "Configured credentials are invalid"), typed) ∧
  credentials typed = (Return (Some "bob", Some "pw"), typed) ∧
  credentials_prompts typed = [].
Proof.
  intros typed. split.
  - exact (proj2 (proj2 (proj2 (proj2
             (invalidate_ignores_configuration (H := authenticator)))))).
  - repeat split; reflexivity.
Defined.

Lemma credentials_spec_witness :
  credentials_prompts alice = [] ∧
  credentials_prompts (invalidate_credentials alice).2 = ["Password: "].
Proof.
  split.
  - destruct (credentials_spec alice) as (Hknown & _ & _).
    destruct (Hknown "alice" "guess") as [_ Hp]; [reflexivity..|].
    exact Hp.
  - destruct (credentials_spec (invalidate_credentials alice).2)
      as (_ & Hask & _).
    destruct Hask as [Hp _]; [vm_compute; lia|].
    exact Hp.
Defined.

(** With the flag of the user name set and that of the password not set,
    [invalidate_credentials] returns normally: it clears the password and
    keeps the user name. *)
Lemma invalidate_credentials_keeps_fixed_username :
  _username_fixed (self alice) = true ∧
  invalidate_credentials alice =
    (Return tt,
     {| self := {| _username := Some "alice"; _password := None;
                   _username_fixed := true; _password_fixed := false |};
        stdin := ["second guess"]; tty := [] |}).
Proof. split; reflexivity. Qed.

Lemma invalidate_spec_witness :
  "Password: " ∈ credentials_prompts (invalidate_password alice).2.
Proof.
  destruct (invalidate_spec alice) as (_ & _ & _ & Hask).
  destruct (Hask false true) as [_ Hp]; [vm_compute; lia|].
  exact (Hp eq_refl).
Defined.

End SimpleAuthenticatorSpec.

(** ** The crawler *)

Module CrawlerSpec.

Import CrawlerSection Crawler.

Create HintDb crawler discriminated.

#[local] Hint Unfold mbind mret M_bind M_ret raise try_except with_context
  get_self set_error_free log_warn log_explain log_explain_topic
  call_output_dir show_progress : crawler.

(** Runs the monadic code of a goal on the state it is applied to. *)
Ltac run_crawler := autounfold with crawler; simpl.

Section Facts.

Context `{CrawlerEnv}.

(** *** The wrappers *)

Lemma noncritical_anoncritical (f : wrapped) (args : list arg) (kw : kwargs)
    (st : state) :
  first_is_crawler args = true →
  anoncritical f args kw st = noncritical f args kw st.
Proof. unfold anoncritical, noncritical. by intros ->. Qed.

Lemma noncritical_cases (f : wrapped) (args : list arg) (kw : kwargs)
    (st : state) :
  first_is_crawler args = true →
  noncritical f args kw st =
    match f args kw st with
    | (Return tt, st') => (Return tt, st')
    | (Raise e, st') =>
        if recoverable e
        then (Return tt, with_error_free false (emit (warn (str e)) st'))
        else (Raise e, with_error_free false st')
    end.
Proof.
  intros Hc. unfold noncritical. rewrite Hc; simpl. run_crawler.
  destruct (f args kw st) as [[[]|e] st']; [done|].
  by destruct (recoverable e).
Qed.

Lemma wrapper_cases (wrapper : wrapped → wrapped) (f : wrapped)
    (args : list arg) (kw : kwargs) (st : state) :
  wrapper = noncritical ∨ wrapper = anoncritical →
  first_is_crawler args = true →
  wrapper f args kw st =
    match f args kw st with
    | (Return tt, st') => (Return tt, st')
    | (Raise e, st') =>
        if recoverable e
        then (Return tt, with_error_free false (emit (warn (str e)) st'))
        else (Raise e, with_error_free false st')
    end.
Proof.
  intros [-> | ->] Hc.
  - by apply noncritical_cases.
  - rewrite noncritical_anoncritical by done. by apply noncritical_cases.
Qed.

(** C3.  For a wrapped call on a crawler, with either wrapper: a failure of
    the recoverable classes is logged as a warning, [error_free] becomes
    false and the wrapper returns normally; any other failure makes
    [error_free] false and is raised again; when the call succeeds the
    wrapper leaves the state, [error_free] included, as the call left it. *)
Theorem wrapper_spec (wrapper : wrapped → wrapped) (f : wrapped)
    (args : list arg) (kw : kwargs) (st st' : state) :
  wrapper = noncritical ∨ wrapper = anoncritical →
  first_is_crawler args = true →
  (∀ e, f args kw st = (Raise e, st') → recoverable e = true →
        wrapper f args kw st =
          (Return tt, with_error_free false (emit (warn (str e)) st'))) ∧
  (∀ e, f args kw st = (Raise e, st') → recoverable e = false →
        wrapper f args kw st = (Raise e, with_error_free false st')) ∧
  (f args kw st = (Return tt, st') →
   wrapper f args kw st = (Return tt, st')).
Proof.
  intros Hw Hc. rewrite wrapper_cases by done.
  repeat split.
  - by intros e -> ->.
  - by intros e -> ->.
  - by intros ->.
Qed.

(** A wrapper raises without calling [f] when the first argument is not a
    crawler; the state is untouched. *)
Lemma noncritical_not_a_method (f : wrapped) (args : list arg) (kw : kwargs)
    (st : state) :
  first_is_crawler args = false →
  noncritical f args kw st =
    (Raise (RuntimeError "@noncritical must only applied to Crawler methods"),
     st).
Proof. unfold noncritical. by intros ->. Qed.

(** *** [error_free] only ever goes from true to false *)

Lemma no_reset_ret {A} (a : A) : no_reset (mret a).
Proof. by intros st. Qed.

Lemma no_reset_raise {A} (e : exn) : no_reset (raise (A := A) e).
Proof. by intros st. Qed.

Lemma no_reset_bind {A B} (m : M state A) (k : A → M state B) :
  no_reset m → (∀ a, no_reset (k a)) → no_reset (m ≫= k).
Proof.
  intros Hm Hk st Hst. specialize (Hm st Hst). run_crawler.
  destruct (m st) as [[a|e] st1]; simpl in *; [|done].
  by apply Hk.
Qed.

Lemma no_reset_try_except {A} (body : M state A) (handler : exn → M state A) :
  no_reset body → (∀ e, no_reset (handler e)) →
  no_reset (try_except body handler).
Proof.
  intros Hb Hh st Hst. specialize (Hb st Hst). unfold try_except.
  destruct (body st) as [[a|e] st1]; simpl in *; [done|].
  by apply Hh.
Qed.

Lemma no_reset_emit (ev : event) : no_reset (λ st, (Return tt, emit ev st)).
Proof. by intros st. Qed.

Lemma no_reset_set_false : no_reset (set_error_free false).
Proof. by intros st. Qed.

Lemma no_reset_get_self : no_reset get_self.
Proof. by intros st. Qed.

Lemma no_reset_call_output_dir {A} (c : od_call)
    (m : OutputDirectory → result A * OutputDirectory) :
  no_reset (call_output_dir c m).
Proof.
  intros st Hst. unfold call_output_dir.
  by destruct (m (_output_dir (self st))).
Qed.

Lemma no_reset_show_progress {A} (body : M state A) :
  no_reset body → no_reset (show_progress body).
Proof.
  intros Hb st Hst. unfold show_progress, with_context.
  specialize (Hb (emit show_progress_enter st) Hst).
  by destruct (body (emit show_progress_enter st)).
Qed.

#[local] Hint Resolve no_reset_ret no_reset_raise no_reset_emit
  no_reset_set_false no_reset_get_self no_reset_call_output_dir
  no_reset_show_progress : crawler.

#[local] Hint Extern 1 (no_reset (log_explain _)) =>
  apply no_reset_emit : crawler.
#[local] Hint Extern 1 (no_reset (log_explain_topic _)) =>
  apply no_reset_emit : crawler.
#[local] Hint Extern 1 (no_reset (log_warn _)) =>
  apply no_reset_emit : crawler.

(** Splits a goal about a sequence into goals about its steps. *)
Ltac no_reset_steps :=
  repeat first
    [ apply no_reset_bind; [|intros ?]
    | apply no_reset_try_except; [|intros ?]
    | progress auto with crawler ].

Lemma no_reset_noncritical (f : wrapped) (args : list arg) (kw : kwargs) :
  no_reset (f args kw) → no_reset (noncritical f args kw).
Proof.
  intros Hf. unfold noncritical.
  destruct (first_is_crawler args); simpl; [|auto with crawler].
  apply no_reset_try_except; [done|].
  intros e. destruct (recoverable e); no_reset_steps.
Qed.

Lemma no_reset_anoncritical (f : wrapped) (args : list arg) (kw : kwargs) :
  no_reset (f args kw) → no_reset (anoncritical f args kw).
Proof.
  intros Hf. unfold anoncritical.
  destruct (first_is_crawler args); simpl; [|auto with crawler].
  apply no_reset_try_except; [done|].
  intros e. destruct (recoverable e); no_reset_steps.
Qed.

Lemma no_reset_crawl (path : PurePath) : no_reset (crawl path).
Proof.
  unfold crawl. no_reset_steps.
  destruct (Transformer_transform _ _); no_reset_steps.
Qed.

Lemma no_reset_download (path : PurePath) (mtime : option datetime)
    (redl : option Redownload) (onc : option OnConflict) :
  no_reset (download path mtime redl onc).
Proof.
  unfold download. no_reset_steps.
  destruct (Transformer_transform _ _); no_reset_steps.
  match goal with |- no_reset (match ?x with _ => _ end) => destruct x end;
    no_reset_steps.
Qed.

Lemma no_reset__cleanup : no_reset _cleanup.
Proof.
  unfold _cleanup. no_reset_steps.
  match goal with |- no_reset (if ?x then _ else _) => destruct x end;
    no_reset_steps.
Qed.

Lemma no_reset_run (_run : M state unit) : no_reset _run → no_reset (run _run).
Proof.
  intros Hr. unfold run. apply no_reset_show_progress.
  repeat first
    [ exact no_reset__cleanup
    | apply no_reset_bind; [|intros ?]
    | progress auto with crawler ].
Qed.

Lemma init_error_free (name : string) (section : CrawlerSection.t)
    (config : Config) (c : t) :
  __init__ name section config = Return c → error_free c = true.
Proof.
  unfold __init__. unfold mbind, result_bind, mret, result_ret.
  repeat match goal with
         | |- context [match ?x with Return _ => _ | Raise _ => _ end] =>
             destruct x; try discriminate
         end.
  by intros [= <-].
Qed.

(** C9.  The constructor sets [error_free] to true.  After that no
    operation sets it back to true: a wrapper ends with the flag true only if
    the wrapped call returned normally and left it true, and from a state
    where the flag is false, the wrappers (around a call that does not reset
    it), [crawl], [download], [_cleanup] and [run] (around a [_run] that does
    not reset it) all end with the flag false. *)
Theorem error_free_monotone :
  (∀ name section config c,
     __init__ name section config = Return c → error_free c = true) ∧
  (∀ wrapper, wrapper = noncritical ∨ wrapper = anoncritical →
     ∀ f args kw,
       (∀ st, first_is_crawler args = true →
              error_free (self (wrapper f args kw st).2) = true →
              (f args kw st).1 = Return tt ∧
              error_free (self (f args kw st).2) = true) ∧
       (no_reset (f args kw) → no_reset (wrapper f args kw))) ∧
  (∀ path, no_reset (crawl path)) ∧
  (∀ path mtime redl onc, no_reset (download path mtime redl onc)) ∧
  no_reset _cleanup ∧
  (∀ _run, no_reset _run → no_reset (run _run)).
Proof.
  split; [exact init_error_free|].
  split; [|auto using no_reset_crawl, no_reset_download, no_reset__cleanup,
                       no_reset_run].
  intros wrapper Hw f args kw. split.
  - intros st Hc. rewrite wrapper_cases by done.
    destruct (f args kw st) as [[[]|e] st1]; simpl; [done|].
    by destruct (recoverable e).
  - destruct Hw as [-> | ->];
      auto using no_reset_noncritical, no_reset_anoncritical.
Qed.

(** *** Excluded paths *)

(** C4.  For a path the transformer excludes, [crawl] returns [None], and
    [download] returns [None] whatever the other arguments are; each only
    logs its decision, so the crawler and its output directory are as
    before and no call on the output directory is made. *)
Theorem excluded_path_spec (path : PurePath) (st : state) :
  Transformer_transform (_transformer (self st)) path = None →
  crawl path st =
    (Return None,
     emit (explain "Answer: No")
       (emit (explain_topic ("Decision: Crawl " +:+ fmt_path path)) st)) ∧
  ∀ mtime redl onc,
    download path mtime redl onc st =
      (Return None,
       emit (explain "Answer: No")
         (emit (explain_topic ("Decision: Download " +:+ fmt_path path)) st))
    ∧ self (download path mtime redl onc st).2 = self st
    ∧ logged (download path mtime redl onc) st =
        [explain_topic ("Decision: Download " +:+ fmt_path path);
         explain "Answer: No"].
Proof.
  intros Hx. unfold crawl, download, logged. run_crawler. rewrite Hx.
  split; [done|]. intros mtime redl onc. simpl.
  split; [done|]. split; [done|].
  by rewrite <- app_assoc, drop_app_length.
Qed.

(** *** The life cycle of a run *)

Lemma cleanup_cases (st : state) :
  _cleanup st =
    if error_free (self st)
    then call_output_dir cleanup OutputDirectory_cleanup
           (emit_all (cleanup_decision true) st)
    else (Return tt, emit_all (cleanup_decision false) st).
Proof.
  unfold _cleanup, emit_all, cleanup_decision. run_crawler.
  destruct (error_free (self st)); unfold emit; simpl;
    by rewrite <- !app_assoc.
Qed.

Lemma run_cases (_run : M state unit) (st : state) :
  run _run st =
    match startup (emit show_progress_enter st) with
    | (Raise e, st2) => (Raise e, emit show_progress_exit st2)
    | (Return tt, st2) =>
        match _run st2 with
        | (Raise e, st3) => (Raise e, emit show_progress_exit st3)
        | (Return tt, st3) =>
            match _cleanup st3 with
            | (Raise e, st4) => (Raise e, emit show_progress_exit st4)
            | (Return tt, st4) =>
                let '(r, st5) :=
                  call_output_dir store_report OutputDirectory_store_report
                    st4 in
                (r, emit show_progress_exit st5)
            end
        end
    end.
Proof.
  unfold run, startup, show_progress, with_context.
  unfold mbind at 1 2 3 4 5, M_bind.
  destruct (call_output_dir prepare _ _) as [[[]|e] st1]; [|done].
  destruct (call_output_dir load_prev_report _ _) as [[[]|e] st2]; [|done].
  destruct (_run st2) as [[[]|e] st3]; [|done].
  destruct (_cleanup st3) as [[[]|e] st4]; [|done].
  done.
Qed.

Lemma store_report_log (st : state) :
  log (call_output_dir store_report OutputDirectory_store_report st).2 =
    log st ++ [called store_report].
Proof.
  unfold call_output_dir.
  by destruct (OutputDirectory_store_report (_output_dir (self st))).
Qed.

(** C1, as the code has it.  Once [prepare] and [load_prev_report] have
    returned: when [_run] and [_cleanup] return normally, whatever the value
    of [error_free], [run] ends with the call of [store_report], made after
    everything [_run] and the cleanup decision did; in particular a run that
    ends with [error_free] false still stores its report.  When [_run]
    raises, [run] raises the same failure and [store_report] is not
    called. *)
Theorem run_store_report (_run : M state unit) (st st2 : state) :
  startup (emit show_progress_enter st) = (Return tt, st2) →
  (∀ st3 st4,
     _run st2 = (Return tt, st3) → _cleanup st3 = (Return tt, st4) →
     run _run st =
       (let '(r, st5) :=
          call_output_dir store_report OutputDirectory_store_report st4 in
        (r, emit show_progress_exit st5)) ∧
     log (run _run st).2 =
       log st4 ++ [called store_report; show_progress_exit]) ∧
  (∀ st3,
     _run st2 = (Return tt, st3) → error_free (self st3) = false →
     log (run _run st).2 =
       log st3 ++ cleanup_decision false ++
       [called store_report; show_progress_exit]) ∧
  (∀ e st3,
     _run st2 = (Raise e, st3) →
     run _run st = (Raise e, emit show_progress_exit st3)).
Proof.
  intros Hs.
  assert (Hstored : ∀ st3 st4,
    _run st2 = (Return tt, st3) → _cleanup st3 = (Return tt, st4) →
    run _run st =
      (let '(r, st5) :=
         call_output_dir store_report OutputDirectory_store_report st4 in
       (r, emit show_progress_exit st5)) ∧
    log (run _run st).2 =
      log st4 ++ [called store_report; show_progress_exit]).
  { intros st3 st4 Hr Hc. rewrite run_cases, Hs, Hr, Hc.
    split; [done|].
    pose proof (store_report_log st4) as Hl.
    destruct (call_output_dir store_report _ st4) as [r st5]; simpl in *.
    by rewrite Hl, <- app_assoc. }
  split; [exact Hstored | split].
  - intros st3 Hr Hf.
    assert (Hc : _cleanup st3 =
                 (Return tt, emit_all (cleanup_decision false) st3))
      by (by rewrite cleanup_cases, Hf).
    destruct (Hstored _ _ Hr Hc) as [_ ->]. simpl.
    by rewrite <- app_assoc.
  - intros e st3 Hr. by rewrite run_cases, Hs, Hr.
Qed.

(** C2.  [_cleanup] calls the cleanup of the output directory if
    [error_free] is true when it is reached, and otherwise only logs its
    decision, leaving the output directory as it is.  Within [run], the
    cleanup is called exactly when [_run] returns with [error_free] true.
    After a recoverable failure in a wrapped leaf operation of the strategy
    (nothing that follows resetting the flag), [error_free] is false at the
    end of the strategy and [_cleanup] does not touch the output
    directory. *)
Theorem cleanup_gating :
  (∀ st, error_free (self st) = true →
         _cleanup st =
           call_output_dir cleanup OutputDirectory_cleanup
             (emit_all (cleanup_decision true) st)) ∧
  (∀ st, error_free (self st) = false →
         _cleanup st = (Return tt, emit_all (cleanup_decision false) st) ∧
         _output_dir (self (_cleanup st).2) = _output_dir (self st)) ∧
  (∀ _run st st2 st3,
     startup (emit show_progress_enter st) = (Return tt, st2) →
     _run st2 = (Return tt, st3) →
     called cleanup ∈ drop (length (log st3)) (log (run _run st).2) ↔
     error_free (self st3) = true) ∧
  (∀ wrapper, wrapper = noncritical ∨ wrapper = anoncritical →
     ∀ (before after : M state unit) f args kw st0 st1 st1' e,
       first_is_crawler args = true →
       before st0 = (Return tt, st1) →
       f args kw st1 = (Raise e, st1') →
       recoverable e = true →
       no_reset after →
       ∀ st3, st3 = ((before;; wrapper f args kw;; after) st0).2 →
              error_free (self st3) = false ∧
              _output_dir (self (_cleanup st3).2) = _output_dir (self st3)).
Proof.
  assert (Hoff : ∀ st, error_free (self st) = false →
    _cleanup st = (Return tt, emit_all (cleanup_decision false) st) ∧
    _output_dir (self (_cleanup st).2) = _output_dir (self st)).
  { intros st Hf. rewrite cleanup_cases, Hf. by split. }
  split; [|split; [exact Hoff | split]].
  - intros st Ht. by rewrite cleanup_cases, Ht.
  - intros _run st st2 st3 Hs Hr.
    rewrite run_cases, Hs, Hr, cleanup_cases.
    destruct (error_free (self st3)) eqn:Hf.
    + unfold call_output_dir at 1; simpl.
      destruct (OutputDirectory_cleanup _) as [[[]|e] od]; simpl.
      * unfold call_output_dir; simpl.
        destruct (OutputDirectory_store_report od) as [r od']; simpl.
        rewrite <- !app_assoc, drop_app_length.
        split; [done | intros _; repeat constructor].
      * rewrite <- !app_assoc, drop_app_length.
        split; [done | intros _; repeat constructor].
    + unfold call_output_dir; simpl.
      destruct (OutputDirectory_store_report _) as [r od']; simpl.
      rewrite <- !app_assoc, drop_app_length.
      split; [|done]. intros Hin.
      repeat (apply elem_of_cons in Hin as [Hin|Hin]; [discriminate|]).
      by apply elem_of_nil in Hin.
  - intros wrapper Hw before after f args kw st0 st1 st1' e Hc Hb Hf He Ha
      st3 ->.
    assert (Hflag : error_free
              (self ((before;; wrapper f args kw;; after) st0).2) = false).
    { unfold mbind at 1, M_bind. rewrite Hb.
      unfold mbind, M_bind.
      rewrite (wrapper_cases wrapper f args kw st1 Hw Hc), Hf, He.
      by apply Ha. }
    split; [exact Hflag | by apply Hoff].
Qed.

End Facts.

Import Example.

(** C1 fails as stated: when the strategy raises, [run] raises too, no
    call of [store_report] is made and the report on disk is the old one;
    the current (empty) report is not persisted. *)
Lemma run_failure_skips_store_report :
  (run failing_run demo).1 = Raise (CrawlError "login failed") ∧
  log (run failing_run demo).2 =
    [show_progress_enter; called prepare; called load_prev_report;
     show_progress_exit] ∧
  report (_output_dir (self (run failing_run demo).2)) = ∅ ∧
  stored_report (_output_dir (self (run failing_run demo).2)) =
    Some {["old.pdf"]}.
Proof. repeat split; reflexivity. Qed.

(** The same crawler with a strategy that only meets a warning: the report
    is stored, at the very end. *)
Lemma run_store_report_witness :
  log (run warned_run demo).2 =
    [show_progress_enter; called prepare; called load_prev_report;
     warn "page missing"] ++ cleanup_decision false ++
    [called store_report; show_progress_exit].
Proof.
  destruct (run_store_report warned_run demo
              (startup (emit show_progress_enter demo)).2 eq_refl)
    as (_ & Hwarned & _).
  exact (Hwarned _ eq_refl eq_refl).
Defined.

(** After the warning, the file that only the previous report lists is
    still there; the same run without the warning deletes it. *)
Lemma cleanup_gating_witness :
  let st3 := (warned_run (startup (emit show_progress_enter demo)).2).2 in
  (error_free (self st3) = false ∧
   _output_dir (self (_cleanup st3).2) = _output_dir (self st3)) ∧
  prev_report (_output_dir (self st3)) = Some {["old.pdf"]} ∧
  report (_output_dir (self st3)) = ∅ ∧
  files (_output_dir (self (run warned_run demo).2)) = {["old.pdf"]} ∧
  files (_output_dir (self (run empty_run demo).2)) = ∅.
Proof.
  split; [|repeat split; reflexivity].
  destruct cleanup_gating as (_ & _ & _ & Hrec).
  apply (Hrec anoncritical (or_intror eq_refl) (mret tt) (mret tt)
           page_missing [crawler_object] []
           (startup (emit show_progress_enter demo)).2
           (startup (emit show_progress_enter demo)).2
           (startup (emit show_progress_enter demo)).2
           (CrawlWarning "page missing"));
    try reflexivity.
  apply no_reset_ret.
Defined.

Lemma wrapper_spec_witness :
  noncritical page_missing [crawler_object] [] demo =
    (Return tt, with_error_free false (emit (warn "page missing") demo)).
Proof.
  destruct (wrapper_spec noncritical page_missing [crawler_object] [] demo
              demo (or_introl eq_refl) eq_refl) as (Hrec & _ & _).
  exact (Hrec (CrawlWarning "page missing") eq_refl eq_refl).
Defined.

Lemma excluded_path_spec_witness :
  (crawl secret demo).1 = Return None ∧
  (download secret at_seven force replace demo).1 = Return None ∧
  self (download secret at_seven force replace demo).2 = self demo.
Proof.
  destruct (excluded_path_spec secret demo eq_refl) as [Hc Hd].
  destruct (Hd at_seven force replace) as (Hd1 & Hd2 & _).
  rewrite Hc, Hd1. repeat split; exact Hd2.
Defined.

Lemma error_free_monotone_witness :
  match __init__ "crawl:demo" demo_section work with
  | Return c => error_free c = true
  | Raise _ => False
  end ∧
  no_reset (run empty_run).
Proof.
  destruct error_free_monotone as (Hinit & _ & _ & _ & _ & Hrun).
  split.
  - destruct (__init__ "crawl:demo" demo_section work) as [c|e] eqn:E.
    + exact (Hinit _ _ _ _ E).
    + vm_compute in E. discriminate E.
  - apply Hrun. apply no_reset_ret.
Defined.

(** *** [gather] *)

Section Gather.

Context {V : Type}.

Implicit Types (a b : awaitable V) (l : list (awaitable V)).

Lemma await_gather_unfold (fuel : nat) (tasks : list (task V)) :
  await_gather fuel tasks =
    match first_failure tasks with
    | Some e => (Raise e, tasks)
    | None =>
        match results_of tasks with
        | Some results => (Return results, tasks)
        | None =>
            match fuel with
            | O => (Raise (RuntimeError "out of fuel"), tasks)
            | S fuel => await_gather fuel (advance <$> tasks)
            end
        end
    end.
Proof. by destruct fuel. Qed.

Lemma ensure_future_after a : ensure_future a = after 0 a.
Proof.
  unfold ensure_future, after. destruct a as [n o]; simpl.
  by rewrite Nat.sub_0_r.
Qed.

Lemma advance_after (k : nat) a : advance (after k a) = after (S k) a.
Proof.
  unfold after. destruct a as [n o]; simpl.
  destruct (decide (k ≤ n)%nat) as [Hk|Hk]; simpl.
  - destruct (n - k)%nat as [|d] eqn:Hd.
    + destruct (decide (S k ≤ n)%nat); [lia | done].
    + destruct (decide (S k ≤ n)%nat); [|lia].
      do 2 f_equal. lia.
  - destruct (decide (S k ≤ n)%nat); [lia|]. by destruct o.
Qed.

Lemma advance_all_after (k : nat) l :
  advance <$> (after k <$> l) = after (S k) <$> l.
Proof.
  rewrite <- list_fmap_compose. apply list_fmap_ext.
  intros i a _. apply advance_after.
Qed.

Lemma iter_advance_after (n k : nat) l :
  Nat.iter n (fmap advance) (after k <$> l) = after (n + k) <$> l.
Proof.
  induction n as [|n IH]; [done|].
  simpl. by rewrite IH, advance_all_after.
Qed.

(** No task has failed while every failing coroutine is still running. *)
Lemma first_failure_after_none (k : nat) l :
  (∀ b, b ∈ l → fails b → (k ≤ suspensions b)%nat) →
  first_failure (after k <$> l) = None.
Proof.
  induction l as [|a l IH]; intros Hl; [done|].
  simpl. unfold after at 1.
  destruct (decide (k ≤ suspensions a)%nat) as [Hk|Hk].
  - apply IH. intros b Hb. apply Hl. by right.
  - destruct (outcome a) as [v|e] eqn:Ho; simpl.
    + apply IH. intros b Hb. apply Hl. by right.
    + destruct Hk. apply Hl; [by left | by exists e].
Qed.

(** Once a failing coroutine has ended, the failure found is that of a
    coroutine that has ended. *)
Lemma first_failure_after_some (k : nat) l a :
  a ∈ l → fails a → (suspensions a < k)%nat →
  ∃ e b, first_failure (after k <$> l) = Some e ∧
         b ∈ l ∧ outcome b = Raise e ∧ (suspensions b < k)%nat.
Proof.
  induction l as [|c l IH]; intros Ha Hf Hk; [by apply elem_of_nil in Ha|].
  simpl. unfold after at 1.
  destruct (decide (k ≤ suspensions c)%nat) as [Hc|Hc];
    [|destruct (outcome c) as [v|e] eqn:Ho; simpl].
  - apply elem_of_cons in Ha as [->|Ha]; [lia|].
    destruct (IH Ha Hf Hk) as (e & b & He & Hb & Hob & Hkb).
    exists e, b. repeat split; [done | by right | done | done].
  - apply elem_of_cons in Ha as [->|Ha].
    { destruct Hf as [e He]. congruence. }
    destruct (IH Ha Hf Hk) as (e & b & He & Hb & Hob & Hkb).
    exists e, b. repeat split; [done | by right | done | done].
  - exists e, c. repeat split; [by left | done | lia].
Qed.

(** No list of results while a task is still running or has failed. *)
Lemma results_of_after_none (k : nat) l a :
  a ∈ l → fails a ∨ (k ≤ suspensions a)%nat →
  results_of (after k <$> l) = None.
Proof.
  induction l as [|c l IH]; intros Ha Hf; [by apply elem_of_nil in Ha|].
  rewrite fmap_cons. apply elem_of_cons in Ha as [<-|Ha].
  - unfold after at 1.
    destruct (decide (k ≤ suspensions a)%nat) as [Hk|Hk]; [done|].
    destruct Hf as [[e ->]|Hf]; [done | lia].
  - destruct (after k c); simpl; try done. by rewrite (IH Ha Hf).
Qed.

(** Once every coroutine has returned, the tasks hold their values. *)
Lemma after_all_finished (k : nat) l (results : list V) :
  outcome <$> l = Return <$> results →
  (∀ b, b ∈ l → (suspensions b < k)%nat) →
  after k <$> l = finished <$> results.
Proof.
  revert results. induction l as [|a l IH]; intros [|v results] Ho Hk;
    try done.
  simpl in *. injection Ho as Ha Ho. f_equal.
  - unfold after. destruct (decide (k ≤ suspensions a)%nat) as [Hle|_].
    + specialize (Hk a (list_elem_of_here _ _)). lia.
    + by rewrite Ha.
  - apply IH; [done|]. intros b Hb. apply Hk. by right.
Qed.

Lemma results_of_finished (results : list V) :
  results_of (finished <$> results) = Some results.
Proof.
  induction results as [|v results IH]; [done|].
  change (results_of (finished <$> v :: results))
    with ((v ::.) <$> results_of (finished <$> results)).
  by rewrite IH.
Qed.

Lemma first_failure_finished (results : list V) :
  first_failure (finished <$> results) = None.
Proof. by induction results. Qed.

(** The loop, when no coroutine fails. *)
Lemma await_gather_returns l (results : list V) :
  outcome <$> l = Return <$> results →
  ∀ fuel k,
    (max_list (suspensions <$> l) < k + fuel)%nat →
    await_gather fuel (after k <$> l) =
      (Return results, finished <$> results).
Proof.
  intros Ho.
  assert (Hnone : ∀ b, b ∈ l → ¬ fails b).
  { intros b Hb [e He].
    assert (Hin : Raise e ∈ outcome <$> l).
    { rewrite <- He. by apply list_elem_of_fmap_2. }
    rewrite Ho in Hin. apply list_elem_of_fmap in Hin as (v & Hv & _).
    discriminate. }
  induction fuel as [|fuel IH]; intros k Hk.
  - rewrite (after_all_finished k l results), await_gather_unfold; [|done|].
    + by rewrite first_failure_finished, results_of_finished.
    + intros b Hb.
      assert (suspensions b ≤ max_list (suspensions <$> l))%nat; [|lia].
      apply max_list_elem_of_le. by apply list_elem_of_fmap_2.
  - rewrite await_gather_unfold.
    rewrite first_failure_after_none
      by (intros b Hb Hf; by destruct (Hnone b Hb)).
    destruct (decide (Forall (λ b, suspensions b < k)%nat l)) as [Hall|Hex].
    + rewrite Forall_forall in Hall.
      rewrite (after_all_finished k l results) by done.
      by rewrite results_of_finished.
    + apply not_Forall_Exists in Hex; [|intros b; apply _].
      apply Exists_exists in Hex as (b & Hb & Hkb). simpl in Hkb.
      rewrite (results_of_after_none k l b) by (done || (right; lia)).
      rewrite advance_all_after. apply IH. lia.
Qed.

(** The loop, when [first] is a coroutine that fails and none fails after
    fewer suspensions. *)
Lemma await_gather_raises l (first : awaitable V) :
  first ∈ l → fails first →
  (∀ b, b ∈ l → fails b → (suspensions first ≤ suspensions b)%nat) →
  ∃ e b,
    b ∈ l ∧ outcome b = Raise e ∧ suspensions b = suspensions first ∧
    ∀ d k fuel,
      (k + d = S (suspensions first))%nat → (d ≤ fuel)%nat →
      await_gather fuel (after k <$> l) =
        (Raise e, after (S (suspensions first)) <$> l).
Proof.
  intros Hin Hf Hmin.
  destruct (first_failure_after_some (S (suspensions first)) l first)
    as (e & b & He & Hb & Hob & Hkb); [done | done | lia |].
  exists e, b.
  assert (Hsb : suspensions b = suspensions first).
  { specialize (Hmin b Hb (ex_intro _ e Hob)). lia. }
  repeat split; try done.
  induction d as [|d IH]; intros k fuel Hk Hfuel.
  - replace k with (S (suspensions first)) by lia.
    by rewrite await_gather_unfold, He.
  - rewrite await_gather_unfold.
    rewrite first_failure_after_none
      by (intros c Hc Hfc; specialize (Hmin c Hc Hfc); lia).
    rewrite (results_of_after_none k l first) by (done || by left).
    destruct fuel as [|fuel]; [lia|].
    rewrite advance_all_after. apply IH; lia.
Qed.

(** Among coroutines of which one fails, one fails first. *)
Lemma none_fails_or_first l :
  (∀ b, b ∈ l → ¬ fails b) ∨
  ∃ first, first ∈ l ∧ fails first ∧
           ∀ b, b ∈ l → fails b → (suspensions first ≤ suspensions b)%nat.
Proof.
  induction l as [|c l [Hnone | (first & Hin & Hf & Hmin)]].
  - left. intros b Hb. by apply elem_of_nil in Hb.
  - destruct (outcome c) as [v|e] eqn:Ho.
    + left. intros b Hb. apply elem_of_cons in Hb as [->|Hb].
      * intros [e He]. congruence.
      * by apply Hnone.
    + right. exists c. split; [by left|]. split; [by exists e|].
      intros b Hb Hfb. apply elem_of_cons in Hb as [->|Hb]; [done|].
      by destruct (Hnone b Hb).
  - right. destruct (outcome c) as [v|e] eqn:Ho.
    + exists first. split; [by right|]. split; [done|].
      intros b Hb Hfb. apply elem_of_cons in Hb as [->|Hb].
      * destruct Hfb as [e He]. congruence.
      * by apply Hmin.
    + destruct (decide (suspensions c ≤ suspensions first)%nat) as [Hc|Hc].
      * exists c. split; [by left|]. split; [by exists e|].
        intros b Hb Hfb. apply elem_of_cons in Hb as [->|Hb]; [done|].
        specialize (Hmin b Hb Hfb). lia.
      * exists first. split; [by right|]. split; [done|].
        intros b Hb Hfb. apply elem_of_cons in Hb as [->|Hb]; [lia|].
        by apply Hmin.
Qed.

Lemma first_to_fail l a :
  a ∈ l → fails a →
  ∃ first, first ∈ l ∧ fails first ∧
           ∀ b, b ∈ l → fails b → (suspensions first ≤ suspensions b)%nat.
Proof.
  intros Ha Hf. destruct (none_fails_or_first l) as [Hnone|Hfirst]; [|done].
  by destruct (Hnone a Ha).
Qed.

(** C5, as the code has it.  If no task fails, [gather] returns the list of
    all results, in order, every task having finished.  If any task fails,
    [gather] raises the failure of the task that failed first, at once: it
    has requested the cancellation of every task that is not done, and
    such a task is still pending (not cancelled), with the request
    recorded, when [gather] raises; a task that is done is left as it
    is. *)
Theorem gather_spec (lag : nat) l :
  (∀ results,
     outcome <$> l = Return <$> results →
     gather lag l = (Return results, finished <$> results)) ∧
  (∀ a,
     a ∈ l → fails a →
     ∃ e first,
       first ∈ l ∧ outcome first = Raise e ∧
       (∀ b, b ∈ l → fails b → (suspensions first ≤ suspensions b)%nat) ∧
       (gather lag l).1 = Raise e ∧
       (gather lag l).2 =
         cancel <$> (after (lag + S (suspensions first)) <$> l) ∧
       Forall (λ t, done t = true ∨ ∃ rest, t = pending true rest)
         (gather lag l).2).
Proof.
  split.
  - intros results Ho. unfold gather.
    rewrite (list_fmap_ext ensure_future (after 0) l)
      by (intros; apply ensure_future_after).
    by rewrite (await_gather_returns l results Ho) by lia.
  - intros a Ha Hf.
    destruct (first_to_fail l a Ha Hf) as (first & Hin & Hff & Hmin).
    destruct (await_gather_raises l first Hin Hff Hmin)
      as (e & b & Hb & Hob & Hsb & Hloop).
    exists e, b.
    assert (Hrun : gather lag l =
              (Raise e, cancel <$> (after (lag + S (suspensions b)) <$> l))).
    { unfold gather.
      rewrite (list_fmap_ext ensure_future (after 0) l)
        by (intros; apply ensure_future_after).
      rewrite (Hloop (S (suspensions first)) 0%nat); [| lia |].
      - by rewrite iter_advance_after, Hsb.
      - assert (suspensions first ≤ max_list (suspensions <$> l))%nat;
          [|lia].
        apply max_list_elem_of_le. by apply list_elem_of_fmap_2. }
    rewrite Hrun. repeat split; try done.
    + intros c Hc Hfc. rewrite Hsb. by apply Hmin.
    + simpl. rewrite Forall_fmap. apply Forall_forall. intros t _.
      simpl. destruct t; simpl; eauto.
Qed.

End Gather.

Lemma gather_spec_witness :
  gather 2 both_fine = (Return [1%nat; 2%nat], [finished 1%nat; finished 2%nat]) ∧
  (gather 2 one_failed).1 = Raise (CrawlError "login failed").
Proof.
  destruct (gather_spec 2 both_fine) as [Hok _].
  destruct (gather_spec 2 one_failed) as [_ Hfail].
  split.
  - exact (Hok [1%nat; 2%nat] eq_refl).
  - destruct (Hfail {| suspensions := 0;
                       outcome := Raise (CrawlError "login failed") |})
      as (e & first & _ & _ & _ & He & _).
    + by left.
    + by eexists.
    + reflexivity.
Defined.

(** C5 fails as stated: the first task has failed and [gather] has raised
    its failure, while the second task, whose cancellation it requested, is
    not done; it takes one more iteration of the event loop for that task
    to receive [CancelledError], and [gather] has not waited for it. *)
Lemma gather_raises_before_cancelled :
  gather 2 one_failed =
    (Raise (CrawlError "login failed"),
     [failed (CrawlError "login failed");
      pending true {| suspensions := 2; outcome := Return 1%nat |}]) ∧
  done (pending true {| suspensions := 2; outcome := Return 1%nat |}) =
    false ∧
  advance (pending true {| suspensions := 2; outcome := Return 1%nat |}) =
    failed CancelledError.
Proof. repeat split; reflexivity. Qed.

End CrawlerSpec.

(** * Further properties *)

(** ** The other options of the crawler section *)

Module CrawlerSectionExtra.

Import CrawlerSection.

Section Facts.

Context `{ConfigEnv}.

Lemma downloads_within_tasks (self : t) (d : Z) :
  max_concurrent_downloads self = Return d →
  ∃ tasks, max_concurrent_tasks self = Return tasks ∧ 0 < d ≤ tasks.
Proof.
  unfold max_concurrent_downloads.
  destruct (max_concurrent_tasks self) as [tasks|e] eqn:Ht; simpl;
    [|discriminate].
  pose proof (CrawlerSectionSpec.max_concurrent_tasks_positive _ _ Ht).
  unfold getint, invalid_value.
  destruct (s self !! "max_concurrent_downloads") as [raw|]; simpl.
  - destruct (parse_int raw) as [v|]; simpl; [|discriminate].
    destruct (Z.leb_spec v 0); [discriminate|].
    destruct (Z.gtb_spec v tasks); [discriminate|].
    intros [= <-]. exists tasks. split; [done | lia].
  - intros [= <-]. exists tasks. split; [done | lia].
Qed.

Lemma delay_not_negative (self : t) (v : float) :
  delay_between_tasks self = Return v → PrimFloat.ltb v 0%float = false.
Proof.
  unfold delay_between_tasks, getfloat, invalid_value.
  destruct (s self !! "delay_between_tasks") as [raw|]; simpl.
  - destruct (parse_float raw) as [w|]; simpl; [|discriminate].
    destruct (PrimFloat.ltb w 0) eqn:Hw; [discriminate|].
    by intros [= <-].
  - by intros [= <-].
Qed.

(** X1.  [max_concurrent_tasks] is 1 when the option is absent.  When the
    option is present, a text that is not an integer raises [ValueError], an
    integer above zero is returned, and any other integer raises the
    configuration error naming the field and the value. *)
Theorem max_concurrent_tasks_spec (self : t) :
  (s self !! "max_concurrent_tasks" = None →
   max_concurrent_tasks self = Return 1) ∧
  (∀ raw,
     s self !! "max_concurrent_tasks" = Some raw →
     match parse_int raw with
     | None => ∃ msg, max_concurrent_tasks self = Raise (ValueError msg)
     | Some v =>
         max_concurrent_tasks self =
           if bool_decide (0 < v) then Return v
           else Raise (ConfigOptionError "max_concurrent_tasks" (IntValue v)
                         "Must be greater than 0")
     end).
Proof.
  unfold max_concurrent_tasks, getint, invalid_value. split.
  - by intros ->.
  - intros raw ->. destruct (parse_int raw) as [v|]; simpl; [|by eexists].
    destruct (Z.leb_spec v 0); case_bool_decide; (done || lia).
Qed.

(** X2.  [max_concurrent_downloads] returns [d] exactly when
    [max_concurrent_tasks] returns some [tasks] and either the option is
    absent and [d] is [tasks], or the option holds the integer [d] with
    [0 < d <= tasks].  So a value it returns always lies between 1 and the
    task limit. *)
Theorem max_concurrent_downloads_returns (self : t) (d : Z) :
  (max_concurrent_downloads self = Return d ↔
   ∃ tasks,
     max_concurrent_tasks self = Return tasks ∧
     match s self !! "max_concurrent_downloads" with
     | None => d = tasks
     | Some raw => parse_int raw = Some d ∧ 0 < d ≤ tasks
     end) ∧
  (max_concurrent_downloads self = Return d →
   ∃ tasks, max_concurrent_tasks self = Return tasks ∧ 0 < d ≤ tasks).
Proof.
  assert (Hpos : ∀ tasks, max_concurrent_tasks self = Return tasks →
                          0 < tasks).
  { intros tasks. unfold max_concurrent_tasks, invalid_value.
    destruct (getint id self "max_concurrent_tasks" 1) as [v|e]; simpl;
      [|discriminate].
    destruct (Z.leb_spec v 0); [discriminate|]. intros [= <-]. lia. }
  assert (Hiff : max_concurrent_downloads self = Return d ↔
    ∃ tasks,
      max_concurrent_tasks self = Return tasks ∧
      match s self !! "max_concurrent_downloads" with
      | None => d = tasks
      | Some raw => parse_int raw = Some d ∧ 0 < d ≤ tasks
      end).
  { unfold max_concurrent_downloads, getint, invalid_value.
    destruct (max_concurrent_tasks self) as [tasks|e]; simpl.
    - destruct (s self !! "max_concurrent_downloads") as [raw|]; simpl.
      + destruct (parse_int raw) as [v|]; simpl.
        * destruct (Z.leb_spec v 0); [|destruct (Z.gtb_spec v tasks)].
          -- split; [done|]. intros (? & [= <-] & [= <-] & ?). lia.
          -- split; [done|]. intros (? & [= <-] & [= <-] & ?). lia.
          -- split.
             ++ intros [= <-]. exists tasks. repeat split; (done || lia).
             ++ by intros (? & _ & [= <-] & _).
        * split; [done|]. by intros (? & _ & ? & _).
      + split.
        * intros [= <-]. by exists tasks.
        * by intros (? & [= <-] & ->).
    - split; [done|]. by intros (? & ? & _). }
  split; [exact Hiff|].
  intros Hd. apply Hiff in Hd as (tasks & Ht & Hd). exists tasks.
  split; [done|]. specialize (Hpos _ Ht).
  destruct (s self !! "max_concurrent_downloads"); [tauto | lia].
Qed.

(** X3.  [delay_between_tasks] is 0.0 when the option is absent; a value
    it returns is never below zero; a parsed value below zero raises the
    configuration error naming the field and the value.  The test is the
    floating-point comparison, so a NaN and a negative zero are accepted. *)
Theorem delay_between_tasks_spec (self : t) :
  (s self !! "delay_between_tasks" = None →
   delay_between_tasks self = Return 0%float) ∧
  (∀ v, delay_between_tasks self = Return v →
        PrimFloat.ltb v 0%float = false) ∧
  (∀ raw v,
     s self !! "delay_between_tasks" = Some raw →
     parse_float raw = Some v →
     (PrimFloat.ltb v 0%float = true →
      delay_between_tasks self =
        Raise (ConfigOptionError "delay_between_tasks" (FloatValue v)
                 "Must not be negative")) ∧
     (v = nan ∨ v = neg_zero → delay_between_tasks self = Return v)).
Proof.
  unfold delay_between_tasks, getfloat, invalid_value.
  split; [|split].
  - by intros ->.
  - intros v.
    destruct (s self !! "delay_between_tasks") as [raw|]; simpl.
    + destruct (parse_float raw) as [w|]; simpl; [|discriminate].
      destruct (PrimFloat.ltb w 0) eqn:Hw; [discriminate|].
      by intros [= <-].
    + by intros [= <-].
  - intros raw v -> ->; simpl. split.
    + by intros ->.
    + by intros [-> | ->].
Qed.

(** X4.  [redownload] and [on_conflict] hand the configured text, or
    [never-smart] and [prompt] when the option is absent, to the parser of
    the policy.  A policy it returns is returned; a [ValueError] becomes
    the configuration error naming the field, the text and the capitalized
    message; any other exception passes through as it is. *)
Theorem policy_options_spec (self : t) :
  let rd := default "never-smart" (s self !! "redownload") in
  let oc := default "prompt" (s self !! "on_conflict") in
  (∀ r, Redownload_from_string rd = Return r → redownload self = Return r) ∧
  (∀ msg, Redownload_from_string rd = Raise (ValueError msg) →
          redownload self =
            Raise (ConfigOptionError "redownload" (StrValue rd)
                     (capitalize msg))) ∧
  (∀ e, Redownload_from_string rd = Raise e →
        (∀ msg, e ≠ ValueError msg) → redownload self = Raise e) ∧
  (∀ r, OnConflict_from_string oc = Return r → on_conflict self = Return r) ∧
  (∀ msg, OnConflict_from_string oc = Raise (ValueError msg) →
          on_conflict self =
            Raise (ConfigOptionError "on_conflict" (StrValue oc)
                     (capitalize msg))) ∧
  (∀ e, OnConflict_from_string oc = Raise e →
        (∀ msg, e ≠ ValueError msg) → on_conflict self = Raise e).
Proof.
  intros rd oc. unfold redownload, on_conflict, get, invalid_value.
  fold rd oc.
  repeat split.
  - by intros r ->.
  - by intros msg ->.
  - intros e -> He. destruct e; try done. by destruct (He msg).
  - by intros r ->.
  - by intros msg ->.
  - intros e -> He. destruct e; try done. by destruct (He msg).
Qed.

(** X5.  [auth] returns the authenticator registered under the name the
    [auth] option holds, and only that: without the option it raises what
    [missing_value] raises for [auth]; with a name no authenticator is
    registered under it raises the configuration error naming the field and
    that name. *)
Theorem auth_spec {Auth : Type} (missing_value : string → exn) (self : t)
    (authenticators : gmap string Auth) :
  (s self !! "auth" = None →
   auth missing_value self authenticators = Raise (missing_value "auth")) ∧
  (∀ value,
     s self !! "auth" = Some value →
     authenticators !! value = None →
     auth missing_value self authenticators =
       Raise (ConfigOptionError "auth" (StrValue value)
                "No such auth section exists")) ∧
  (∀ a,
     auth missing_value self authenticators = Return a ↔
     ∃ value, s self !! "auth" = Some value ∧
              authenticators !! value = Some a).
Proof.
  unfold auth, invalid_value. split; [|split].
  - by intros ->.
  - by intros value -> ->.
  - intros a. destruct (s self !! "auth") as [value|].
    + destruct (authenticators !! value) as [b|] eqn:Hb.
      * split.
        -- intros [= <-]. by exists value.
        -- intros (? & [= <-] & Ha). congruence.
      * split; [done|]. intros (? & [= <-] & Ha). congruence.
    + split; [done|]. by intros (? & ? & _).
Qed.

End Facts.

Import Example Scenarios.

Lemma max_concurrent_tasks_spec_witness :
  max_concurrent_tasks two_of_four = Return 4 ∧
  max_concurrent_tasks no_tasks =
    Raise (ConfigOptionError "max_concurrent_tasks" (IntValue 0)
             "Must be greater than 0") ∧
  max_concurrent_tasks no_output_dir = Return 1.
Proof.
  split; [|split].
  - exact (proj2 (max_concurrent_tasks_spec two_of_four) "4" eq_refl).
  - exact (proj2 (max_concurrent_tasks_spec no_tasks) "0" eq_refl).
  - exact (proj1 (max_concurrent_tasks_spec no_output_dir) eq_refl).
Defined.

Lemma max_concurrent_downloads_returns_witness :
  max_concurrent_downloads two_of_four = Return 2.
Proof.
  apply (proj1 (max_concurrent_downloads_returns two_of_four 2)).
  exists 4. split; [reflexivity|].
  change (parse_int "2" = Some 2 ∧ 0 < 2 ≤ 4).
  split; [reflexivity | lia].
Defined.

Lemma delay_between_tasks_spec_witness :
  delay_between_tasks (H := float_env) hasty =
    Raise (ConfigOptionError "delay_between_tasks" (FloatValue (-1.5)%float)
             "Must not be negative") ∧
  delay_between_tasks (H := float_env) no_output_dir = Return 0%float.
Proof.
  destruct (delay_between_tasks_spec (H := float_env) hasty)
    as (_ & _ & Hneg).
  destruct (delay_between_tasks_spec (H := float_env) no_output_dir)
    as (Habsent & _ & _).
  split.
  - destruct (Hneg "-1.5" (-1.5)%float eq_refl eq_refl) as [Hr _].
    exact (Hr eq_refl).
  - exact (Habsent eq_refl).
Defined.

Lemma policy_options_spec_witness :
  redownload sometimes =
    Raise (ConfigOptionError "redownload" (StrValue "sometimes")
             "not a redownload policy") ∧
  redownload no_output_dir = Return never_smart ∧
  on_conflict no_output_dir = Return prompt.
Proof.
  destruct (policy_options_spec sometimes) as (_ & Hbad & _).
  destruct (policy_options_spec no_output_dir)
    as (Hrd & _ & _ & Hoc & _ & _).
  split; [|split].
  - exact (Hbad "not a redownload policy" eq_refl).
  - exact (Hrd never_smart eq_refl).
  - exact (Hoc prompt eq_refl).
Defined.

Lemma auth_spec_witness :
  auth (λ key, OtherException "ConfigOptionError" key) with_auth
    authenticators = Return 7%nat ∧
  auth (λ key, OtherException "ConfigOptionError" key) no_output_dir
    authenticators = Raise (OtherException "ConfigOptionError" "auth").
Proof.
  destruct (auth_spec (λ key, OtherException "ConfigOptionError" key)
              with_auth authenticators) as (_ & _ & Hret).
  destruct (auth_spec (λ key, OtherException "ConfigOptionError" key)
              no_output_dir authenticators) as (Hmiss & _ & _).
  split.
  - apply Hret. exists "auth:campus". split; reflexivity.
  - exact (Hmiss eq_refl).
Defined.

End CrawlerSectionExtra.

(** ** The simple authenticator over a sequence of calls *)

Module AuthenticatorExtra.

Import SimpleAuthenticator Session.

Create HintDb auth_run discriminated.

#[local] Hint Unfold mbind mret M_bind M_ret raise with_context get_self
  set__username set__password set_self show read_line ainput agetpass print
  exclusive_output credentials invalidate_credentials invalidate_username
  invalidate_password shown perform : auth_run.

(** Splits a state by what [credentials] looks at (which values are known,
    and whether zero, one or more lines of input are left) and runs the
    code. *)
Ltac by_cases st :=
  destruct st as [[[?u|] [?p|] ?uf ?pf] [|?l1 [|?l2 ?inp]] ?out];
  autounfold with auth_run; simpl.

(** Shows that an event is none of the events of an explicit list. *)
Ltac not_shown :=
  let Hin := fresh "Hin" in
  intros Hin;
  repeat (apply elem_of_cons in Hin as [Hin|Hin]; [discriminate|]);
  by apply elem_of_nil in Hin.

Section Facts.

Context `{Authenticator}.

Lemma perform_flags (st : state) (c : call) :
  _username_fixed (self (perform st c)) = _username_fixed (self st) ∧
  _password_fixed (self (perform st c)) = _password_fixed (self st).
Proof.
  destruct c; by_cases st; try done;
    destruct uf, pf; done.
Qed.

Lemma session_flags (cs : list call) (st : state) :
  _username_fixed (self (session cs st)) = _username_fixed (self st) ∧
  _password_fixed (self (session cs st)) = _password_fixed (self st).
Proof.
  revert st. induction cs as [|c cs IH]; intros st; [done|].
  unfold session in *; simpl.
  destruct (IH (perform st c)) as [-> ->]. apply perform_flags.
Qed.

(** X6.  The two flags never change after construction, whatever is called
    and however it ends; and the constructor sets them from the inherited
    attributes [username] and [password], not from the section.  So whether
    [invalidate_username] and [invalidate_password] raise is the same for
    every section and at every moment. *)
Theorem session_fixed_flags (section : SimpleAuthSection.t)
    (lines : list string) (cs : list call) :
  let st := session cs (fresh section lines) in
  _username_fixed (self st) = negb (is_None attr_username) ∧
  _password_fixed (self st) = negb (is_None attr_password) ∧
  (invalidate_username st).1 =
    (if is_None attr_username then Return tt
     else Raise (AuthException "Configured username is invalid")) ∧
  (invalidate_password st).1 =
    (if is_None attr_password then Return tt
     else Raise (AuthException "Configured password is invalid")).
Proof.
  intros st.
  destruct (session_flags cs (fresh section lines)) as [Hu Hp].
  fold st in Hu, Hp. simpl in Hu, Hp.
  split; [done | split; [done | split]].
  - unfold invalidate_username. autounfold with auth_run. rewrite Hu.
    by destruct (is_None attr_username).
  - unfold invalidate_password. autounfold with auth_run. rewrite Hp.
    by destruct (is_None attr_password).
Qed.

Lemma perform_keeps_username (st : state) (c : call) (u : string) :
  _username_fixed (self st) = true → _username (self st) = Some u →
  _username (self (perform st c)) = Some u ∧
  ∃ evs, tty (perform st c) = tty st ++ evs ∧
         ainput_prompt "Username: " ∉ evs.
Proof.
  intros Hf Hu.
  destruct c; by_cases st; simpl in *; simplify_eq;
    try (destruct pf; simpl);
    (split; [done|]);
    rewrite <- ?app_assoc;
    first [ by exists []; rewrite app_nil_r; split; [|not_shown]
          | eexists; split; [reflexivity | not_shown] ].
Qed.

Lemma perform_keeps_password (st : state) (c : call) (p : string) :
  _password_fixed (self st) = true → _password (self st) = Some p →
  _password (self (perform st c)) = Some p ∧
  ∃ evs, tty (perform st c) = tty st ++ evs ∧
         agetpass_prompt "Password: " ∉ evs.
Proof.
  intros Hf Hp.
  destruct c; by_cases st; simpl in *; simplify_eq;
    try (destruct uf; simpl);
    (split; [done|]);
    rewrite <- ?app_assoc;
    first [ by exists []; rewrite app_nil_r; split; [|not_shown]
          | eexists; split; [reflexivity | not_shown] ].
Qed.

(** X7.  A value that is known and marked as fixed stays as it is through
    every sequence of calls, and is never asked for: no prompt for the user
    name (for the password) appears on the terminal. *)
Theorem session_keeps_fixed (cs : list call) (st : state) :
  (∀ u, _username_fixed (self st) = true → _username (self st) = Some u →
        _username (self (session cs st)) = Some u ∧
        ainput_prompt "Username: " ∉
          drop (length (tty st)) (tty (session cs st))) ∧
  (∀ p, _password_fixed (self st) = true → _password (self st) = Some p →
        _password (self (session cs st)) = Some p ∧
        agetpass_prompt "Password: " ∉
          drop (length (tty st)) (tty (session cs st))).
Proof.
  split.
  - intros u Hf Hu.
    assert (Hall : _username (self (session cs st)) = Some u ∧
                   ∃ evs, tty (session cs st) = tty st ++ evs ∧
                          ainput_prompt "Username: " ∉ evs).
    { revert st Hf Hu. induction cs as [|c cs IH]; intros st Hf Hu.
      - split; [done|]. exists []. rewrite app_nil_r. split; [done|].
        apply not_elem_of_nil.
      - destruct (perform_keeps_username st c u Hf Hu)
          as (Hu' & evs & Ht & Hn).
        destruct (perform_flags st c) as [Hf' _]. rewrite Hf in Hf'.
        destruct (IH (perform st c) Hf' Hu') as (Hu'' & evs' & Ht' & Hn').
        unfold session in *; simpl. split; [done|].
        exists (evs ++ evs'). rewrite Ht', Ht, <- app_assoc.
        split; [done|]. rewrite elem_of_app. tauto. }
    destruct Hall as (Hu' & evs & -> & Hn).
    by rewrite drop_app_length.
  - intros p Hf Hp.
    assert (Hall : _password (self (session cs st)) = Some p ∧
                   ∃ evs, tty (session cs st) = tty st ++ evs ∧
                          agetpass_prompt "Password: " ∉ evs).
    { revert st Hf Hp. induction cs as [|c cs IH]; intros st Hf Hp.
      - split; [done|]. exists []. rewrite app_nil_r. split; [done|].
        apply not_elem_of_nil.
      - destruct (perform_keeps_password st c p Hf Hp)
          as (Hp' & evs & Ht & Hn).
        destruct (perform_flags st c) as [_ Hf']. rewrite Hf in Hf'.
        destruct (IH (perform st c) Hf' Hp') as (Hp'' & evs' & Ht' & Hn').
        unfold session in *; simpl. split; [done|].
        exists (evs ++ evs'). rewrite Ht', Ht, <- app_assoc.
        split; [done|]. rewrite elem_of_app. tauto. }
    destruct Hall as (Hp' & evs & -> & Hn).
    by rewrite drop_app_length.
Qed.

(** X8.  Once [credentials] has returned a pair, calling it again returns
    the same pair without touching the terminal or the state. *)
Theorem credentials_again (st st' : state)
    (r : option string * option string) :
  credentials st = (Return r, st') →
  credentials st' = (Return r, st') ∧ shown credentials st' = [].
Proof.
  intros Hc.
  assert (Hst' : ∃ u p, r = (Some u, Some p) ∧
                        _username (self st') = Some u ∧
                        _password (self st') = Some p).
  { revert Hc. by_cases st; intros Hc; simplify_eq; by eexists _, _. }
  destruct Hst' as (u & p & -> & Hu & Hp).
  destruct st' as [[u' p' uf' pf'] inp' out']; simpl in *; subst.
  split; [done|].
  autounfold with auth_run; simpl. by rewrite drop_all.
Qed.

(** X9.  When the input ends before every missing value has been typed,
    [credentials] raises [EOFError]; a user name typed before that is kept,
    everything else is as before, and the exclusive output has been given
    back. *)
Theorem credentials_end_of_input (st : state) :
  (length (stdin st) < length (missing st))%nat →
  (credentials st).1 = Raise EOFError ∧
  stdin (credentials st).2 = [] ∧
  _username (self (credentials st).2) =
    match _username (self st) with
    | Some u => Some u
    | None => head (stdin st)
    end ∧
  _password (self (credentials st).2) = _password (self st) ∧
  _username_fixed (self (credentials st).2) = _username_fixed (self st) ∧
  _password_fixed (self (credentials st).2) = _password_fixed (self st) ∧
  last (tty (credentials st).2) = Some exclusive_output_exit.
Proof.
  unfold missing.
  by_cases st; intros Hlen; simpl in Hlen; try lia;
    repeat split; try done; by rewrite last_snoc.
Qed.

(** X10.  [credentials] shows nothing when both values are known.
    Otherwise what it shows starts with taking the exclusive output and ends
    with giving it back, with neither of the two in between, whether it
    returns or raises. *)
Theorem credentials_exclusive_output (st : state) :
  (missing st = [] → shown credentials st = []) ∧
  (missing st ≠ [] →
   ∃ middle,
     shown credentials st =
       exclusive_output_enter :: (middle ++ [exclusive_output_exit]) ∧
     (exclusive_output_enter ∉ middle) ∧
     (exclusive_output_exit ∉ middle)).
Proof.
  unfold missing. split.
  - by_cases st; intros Hm; simplify_eq; by rewrite drop_all.
  - by_cases st; intros Hm; try done;
      rewrite <- ?app_assoc, drop_app_length; simpl;
      first [ by exists []; repeat split; try not_shown
            | by eexists [_]; repeat split; try not_shown
            | by eexists [_; _]; repeat split; try not_shown ].
Qed.

End Facts.

Import Example Scenarios.

Lemma session_keeps_fixed_witness :
  _username
    (self (session [call_invalidate_credentials; call_credentials] alice)) =
    Some "alice".
Proof.
  destruct (session_keeps_fixed
              [call_invalidate_credentials; call_credentials] alice)
    as [Hu _].
  exact (proj1 (Hu "alice" eq_refl eq_refl)).
Defined.

Lemma credentials_again_witness :
  credentials (credentials (invalidate_password alice).2).2 =
    (Return (Some "alice", Some "second guess"),
     (credentials (invalidate_password alice).2).2).
Proof.
  exact (proj1 (credentials_again (invalidate_password alice).2
                  (credentials (invalidate_password alice).2).2
                  (Some "alice", Some "second guess") eq_refl)).
Defined.

Lemma credentials_end_of_input_witness :
  (credentials nobody).1 = Raise EOFError ∧
  _username (self (credentials nobody).2) = Some "bob" ∧
  _password (self (credentials nobody).2) = None.
Proof.
  assert (Hshort : (length (stdin nobody) < length (missing nobody))%nat)
    by (vm_compute; lia).
  destruct (credentials_end_of_input nobody Hshort)
    as (Hr & _ & Hu & Hp & _).
  split; [exact Hr | split; [exact Hu | exact Hp]].
Defined.

Lemma credentials_exclusive_output_witness :
  ∃ middle,
    shown credentials nobody =
      exclusive_output_enter :: (middle ++ [exclusive_output_exit]) ∧
    (exclusive_output_enter ∉ middle) ∧
    (exclusive_output_exit ∉ middle).
Proof.
  apply (proj2 (credentials_exclusive_output nobody)). discriminate.
Defined.

End AuthenticatorExtra.

(** ** Asking a yes/no question *)

Module UtilsSpec.

Import SimpleAuthenticator Utils.

Section Facts.

Variable normalize : string → string.

(** One turn of the loop on a line that is not an answer. *)
Lemma ask_again (fuel : nat) (query : string) (default : option bool)
    (line : string) (lines : list string) (a : t) (out : list io) :
  answer default (normalize line) = None →
  ask normalize (S fuel) query default
    {| self := a; stdin := line :: lines; tty := out |} =
  ask normalize fuel query default
    {| self := a; stdin := lines; tty := out ++ asked_again query |}.
Proof.
  unfold answer. intros Ha. simpl.
  unfold mbind, M_bind, ainput, read_line, print, show; simpl.
  repeat case_bool_decide; try discriminate;
    destruct default; try discriminate; simpl;
    by rewrite <- app_assoc.
Qed.

(** One turn of the loop on an answer. *)
Lemma ask_answered (fuel : nat) (query : string) (default : option bool)
    (line : string) (lines : list string) (a : t) (out : list io)
    (b : bool) :
  answer default (normalize line) = Some b →
  ask normalize (S fuel) query default
    {| self := a; stdin := line :: lines; tty := out |} =
  (Return b,
   {| self := a; stdin := lines; tty := out ++ [ainput_prompt query] |}).
Proof.
  unfold answer. intros Ha. simpl.
  unfold mbind, M_bind, ainput, read_line, mret, M_ret; simpl.
  repeat case_bool_decide; simplify_eq; done.
Qed.

Lemma ask_answers (query : string) (default : option bool)
    (bad : list string) (good : string) (rest : list string) (b : bool) :
  Forall (λ line, answer default (normalize line) = None) bad →
  answer default (normalize good) = Some b →
  ∀ fuel a out,
    (length bad < fuel)%nat →
    ask normalize fuel query default
      {| self := a; stdin := bad ++ good :: rest; tty := out |} =
    (Return b,
     {| self := a; stdin := rest;
        tty := out ++ flat_map (λ _, asked_again query) bad ++
               [ainput_prompt query] |}).
Proof.
  intros Hbad Hgood. induction Hbad as [|line bad Hline _ IH];
    intros fuel a out Hfuel.
  - destruct fuel as [|fuel]; [simpl in Hfuel; lia|].
    simpl app. by rewrite (ask_answered _ _ _ _ _ _ _ b).
  - destruct fuel as [|fuel]; [simpl in Hfuel; lia|].
    simpl app. rewrite ask_again by done.
    rewrite IH by (simpl in Hfuel; lia).
    simpl. by rewrite <- !app_assoc.
Qed.

Lemma ask_end_of_input (query : string) (default : option bool)
    (lines : list string) :
  Forall (λ line, answer default (normalize line) = None) lines →
  ∀ fuel a out,
    (length lines < fuel)%nat →
    ask normalize fuel query default
      {| self := a; stdin := lines; tty := out |} =
    (Raise EOFError,
     {| self := a; stdin := [];
        tty := out ++ flat_map (λ _, asked_again query) lines ++
               [ainput_prompt query] |}).
Proof.
  intros Hbad. induction Hbad as [|line bad Hline _ IH];
    intros fuel a out Hfuel.
  - destruct fuel as [|fuel]; [simpl in Hfuel; lia|]. done.
  - destruct fuel as [|fuel]; [simpl in Hfuel; lia|].
    rewrite ask_again by done.
    rewrite IH by (simpl in Hfuel; lia).
    simpl. by rewrite <- !app_assoc.
Qed.

(** X11.  [prompt_yes_no] asks with the query followed by the hint for the
    default, and asks again, after a reminder, for every line that is no
    answer.  It returns at the first line that is one: true for [y], false
    for [n] (after stripping and lowering), the default for an empty line
    when there is a default.  It has then read exactly the lines up to that
    one. *)
Theorem prompt_yes_no_answers (query : string) (default : option bool)
    (st : state) (bad : list string) (good : string) (rest : list string)
    (b : bool) :
  stdin st = bad ++ good :: rest →
  Forall (λ line, answer default (normalize line) = None) bad →
  answer default (normalize good) = Some b →
  prompt_yes_no normalize query default st =
    (Return b,
     {| self := self st; stdin := rest;
        tty := tty st ++
               flat_map (λ _, asked_again (query +:+ query_suffix default))
                 bad ++
               [ainput_prompt (query +:+ query_suffix default)] |}).
Proof.
  intros Hin Hbad Hgood. unfold prompt_yes_no.
  destruct st as [a inp out]; cbn [stdin self tty] in *; subst inp.
  apply ask_answers; [done | done |].
  rewrite length_app; simpl. lia.
Qed.

(** X12.  When no line of the input is an answer, [prompt_yes_no] asks once
    more than there are lines, a reminder after each line, and then raises
    [EOFError]; in particular an empty line is no answer when there is no
    default. *)
Theorem prompt_yes_no_end_of_input (query : string) (default : option bool)
    (st : state) :
  Forall (λ line, answer default (normalize line) = None) (stdin st) →
  prompt_yes_no normalize query default st =
    (Raise EOFError,
     {| self := self st; stdin := [];
        tty := tty st ++
               flat_map (λ _, asked_again (query +:+ query_suffix default))
                 (stdin st) ++
               [ainput_prompt (query +:+ query_suffix default)] |}) ∧
  (default = None → answer default "" = None).
Proof.
  intros Hbad. split; [|by intros ->].
  unfold prompt_yes_no. destruct st as [a inp out]; cbn [stdin self tty] in *.
  apply ask_end_of_input; [done | lia].
Qed.

End Facts.

Import Example Scenarios.

Lemma prompt_yes_no_answers_witness :
  prompt_yes_no strip_lower "Overwrite?" (Some false) asking =
    (Return true,
     {| self := self asking; stdin := ["n"];
        tty := [ainput_prompt "Overwrite? [y/N] ";
                printed "Please answer with 'y' or 'n'.";
                ainput_prompt "Overwrite? [y/N] "] |}).
Proof.
  apply (prompt_yes_no_answers strip_lower "Overwrite?" (Some false) asking
           ["maybe"] "  Y " ["n"] true).
  - reflexivity.
  - repeat constructor.
  - reflexivity.
Defined.

Lemma prompt_yes_no_end_of_input_witness :
  (prompt_yes_no strip_lower "Overwrite?" None nobody).1 = Raise EOFError.
Proof.
  assert (Hbad : Forall (λ line, answer None (strip_lower line) = None)
                   (stdin nobody)) by repeat constructor.
  destruct (prompt_yes_no_end_of_input strip_lower "Overwrite?" None nobody
              Hbad) as [-> _].
  reflexivity.
Defined.

End UtilsSpec.

(** ** The crawler: construction, decisions, wrappers and the run *)

Module CrawlerExtra.

Import CrawlerSection Crawler.

Create HintDb crawler_run discriminated.

#[local] Hint Unfold mbind mret M_bind M_ret raise try_except with_context
  get_self set_error_free log_warn log_explain log_explain_topic
  call_output_dir show_progress logged : crawler_run.

(** Runs the monadic code of a goal on the state it is applied to. *)
Ltac run_it := autounfold with crawler_run; simpl.

Section Facts.

Context `{CrawlerEnv}.

(** X13.  A crawler that has been constructed carries the given name and a
    limiter built from the section: its task limit and download limit are
    what [max_concurrent_tasks] and [max_concurrent_downloads] return, with
    [0 < download_limit <= task_limit], and its delay is not below zero.
    Its transformer is the one built from the section's rule expression. *)
Theorem init_limits (name : string) (section : CrawlerSection.t)
    (config : Config) (c : t) :
  __init__ name section config = Return c →
  Crawler.name c = name ∧
  max_concurrent_tasks section = Return (task_limit (_limiter c)) ∧
  max_concurrent_downloads section = Return (download_limit (_limiter c)) ∧
  0 < download_limit (_limiter c) ≤ task_limit (_limiter c) ∧
  PrimFloat.ltb (task_delay (_limiter c)) 0%float = false ∧
  Transformer_new (transform section) = Return (_transformer c).
Proof.
  unfold __init__. unfold mbind, result_bind, mret, result_ret.
  destruct (max_concurrent_tasks section) as [tasks|] eqn:Ht;
    [|discriminate].
  destruct (max_concurrent_downloads section) as [downloads|] eqn:Hd;
    [|discriminate].
  destruct (delay_between_tasks section) as [delay|] eqn:Hdelay;
    [|discriminate].
  destruct (Transformer_new _) as [transformer|]; [|discriminate].
  destruct (working_dir config); [|discriminate].
  destruct (output_dir section name); [|discriminate].
  destruct (redownload section); [|discriminate].
  destruct (on_conflict section); [|discriminate].
  intros [= <-]; simpl.
  destruct (CrawlerSectionExtra.downloads_within_tasks _ _ Hd)
    as (tasks' & Ht' & Hrange).
  rewrite Ht in Ht'. injection Ht' as <-.
  repeat split; try done; try lia.
  by apply (CrawlerSectionExtra.delay_not_negative section).
Qed.

(** X14.  [crawl] returns no token exactly for the paths the transformer
    excludes.  For any other path it returns a token that holds the
    crawler's limiter and the path as given (not the transformed one).  It
    never changes the crawler, and so never touches the output directory. *)
Theorem crawl_spec (path : PurePath) (st : state) :
  self (crawl path st).2 = self st ∧
  ((crawl path st).1 = Return None ↔
   Transformer_transform (_transformer (self st)) path = None) ∧
  (∀ transformed_path,
     Transformer_transform (_transformer (self st)) path =
       Some transformed_path →
     (crawl path st).1 =
       Return (Some (mkCrawlToken (_limiter (self st)) path)) ∧
     logged (crawl path) st =
       [explain_topic ("Decision: Crawl " +:+ fmt_path path);
        explain "Answer: Yes"]).
Proof.
  unfold crawl. run_it.
  destruct (Transformer_transform _ path) as [tp|]; simpl.
  - split; [done | split].
    + split; intros; discriminate.
    + intros tp' _. split; [done|].
      by rewrite <- app_assoc, drop_app_length.
  - split; [done | split]; [done|]. intros tp'; discriminate.
Qed.

(** X15.  For a path the transformer keeps, [download] asks the output
    directory once, with the path, the transformed path and the three other
    arguments as given, and leaves the directory in the state that call
    produced.  If the directory raises, [download] raises the same and logs
    no answer; if it declines, [download] returns no token; if it hands out
    a file sink token, [download] returns a token that holds the crawler's
    limiter, that file sink token and the path as given. *)
Theorem download_delegates (path transformed_path : PurePath)
    (mtime : option datetime) (redl : option Redownload)
    (onc : option OnConflict) (st : state) :
  Transformer_transform (_transformer (self st)) path =
    Some transformed_path →
  let topic := explain_topic ("Decision: Download " +:+ fmt_path path) in
  let asked := called (download_call path transformed_path mtime redl onc) in
  let out := OutputDirectory_download path transformed_path mtime redl onc
               (_output_dir (self st)) in
  let res := download path mtime redl onc st in
  _output_dir (self res.2) = out.2 ∧
  match out.1 with
  | Raise e =>
      res.1 = Raise e ∧
      logged (download path mtime redl onc) st = [topic; asked]
  | Return None =>
      res.1 = Return None ∧
      logged (download path mtime redl onc) st =
        [topic; asked; explain "Answer: No"]
  | Return (Some fs_token) =>
      res.1 =
        Return (Some (mkDownloadToken (_limiter (self st)) fs_token path)) ∧
      logged (download path mtime redl onc) st =
        [topic; asked; explain "Answer: Yes"]
  end.
Proof.
  intros Htp topic asked out res. subst res out.
  unfold download. run_it. rewrite Htp; simpl.
  destruct (OutputDirectory_download _ _ _ _ _ _) as [[[tok|]|e] od];
    simpl; (split; [done|]); (split; [done|]);
    by rewrite <- !app_assoc, drop_app_length.
Qed.

(** X16.  Inside a wrapped call, a recoverable failure that the output
    directory raises during [download] (a duplicate marking, say) ends the
    wrapped call there: what would have followed the download is not done,
    the failure is logged as a warning, [error_free] is false and the
    wrapper returns normally. *)
Theorem download_failure_downgraded (wrapper : wrapped → wrapped)
    (path transformed_path : PurePath) (mtime : option datetime)
    (redl : option Redownload) (onc : option OnConflict)
    (k : option DownloadToken → M state unit) (args : list arg) (kw : kwargs)
    (st : state) (e : exn) (od : OutputDirectory) :
  wrapper = noncritical ∨ wrapper = anoncritical →
  first_is_crawler args = true →
  Transformer_transform (_transformer (self st)) path =
    Some transformed_path →
  OutputDirectory_download path transformed_path mtime redl onc
    (_output_dir (self st)) = (Raise e, od) →
  recoverable e = true →
  wrapper (λ _ _, download path mtime redl onc ≫= k) args kw st =
    (Return tt,
     with_error_free false
       (emit (warn (str e))
          (set__output_dir od
             (emit (called (download_call path transformed_path mtime redl
                              onc))
                (emit (explain_topic
                         ("Decision: Download " +:+ fmt_path path)) st))))).
Proof.
  intros Hw Hc Htp Hod He.
  rewrite CrawlerSpec.wrapper_cases by done.
  unfold download. run_it. rewrite Htp; simpl. rewrite Hod; simpl.
  by rewrite He.
Qed.

(** X17.  [crawl], [download] and [_cleanup] change nothing of the crawler
    but its output directory: the name, [error_free], the limiter and the
    transformer are the same afterwards, however the call ends. *)
Theorem decisions_frame (st : state) :
  let same (st' : state) :=
    name (self st') = name (self st) ∧
    error_free (self st') = error_free (self st) ∧
    _limiter (self st') = _limiter (self st) ∧
    _transformer (self st') = _transformer (self st) in
  (∀ path, same (crawl path st).2) ∧
  (∀ path mtime redl onc, same (download path mtime redl onc st).2) ∧
  same (_cleanup st).2.
Proof.
  intros same. subst same. split; [|split].
  - intros path. unfold crawl. run_it.
    by destruct (Transformer_transform _ path).
  - intros path mtime redl onc. unfold download. run_it.
    destruct (Transformer_transform _ path) as [tp|]; simpl; [|done].
    by destruct (OutputDirectory_download _ _ _ _ _ _) as [[[tok|]|e] od].
  - unfold _cleanup. run_it.
    destruct (error_free (self st)) eqn:Hf; simpl; [|by rewrite Hf].
    destruct (OutputDirectory_cleanup _) as [r od]; simpl.
    by rewrite Hf.
Qed.

(** X18.  A failure of [prepare], of [load_prev_report] or of the cleanup
    ends [run] with that failure at once: nothing that comes later in [run]
    is done (after a failure of [prepare] or [load_prev_report] the strategy
    is not started), and in particular the report is not stored. *)
Theorem run_aborts (_run : M state unit) (st : state) (e : exn) :
  (∀ od1,
     OutputDirectory_prepare (_output_dir (self st)) = (Raise e, od1) →
     run _run st =
       (Raise e,
        emit show_progress_exit
          (set__output_dir od1
             (emit (called prepare) (emit show_progress_enter st))))) ∧
  (∀ od1 od2,
     OutputDirectory_prepare (_output_dir (self st)) = (Return tt, od1) →
     OutputDirectory_load_prev_report od1 = (Raise e, od2) →
     run _run st =
       (Raise e,
        emit show_progress_exit
          (set__output_dir od2
             (emit (called load_prev_report)
                (set__output_dir od1
                   (emit (called prepare)
                      (emit show_progress_enter st))))))) ∧
  (∀ st2 st3 od4,
     startup (emit show_progress_enter st) = (Return tt, st2) →
     _run st2 = (Return tt, st3) →
     error_free (self st3) = true →
     OutputDirectory_cleanup (_output_dir (self st3)) = (Raise e, od4) →
     run _run st =
       (Raise e,
        emit show_progress_exit
          (set__output_dir od4
             (emit (called cleanup)
                (emit_all (cleanup_decision true) st3))))).
Proof.
  split; [|split].
  - intros od1 Hp. rewrite CrawlerSpec.run_cases.
    unfold startup. run_it. by rewrite Hp.
  - intros od1 od2 Hp Hl. rewrite CrawlerSpec.run_cases.
    unfold startup. run_it. rewrite Hp; simpl. by rewrite Hl.
  - intros st2 st3 od4 Hs Hr Hf Hc.
    rewrite CrawlerSpec.run_cases, Hs, Hr, CrawlerSpec.cleanup_cases, Hf.
    unfold call_output_dir, emit_all; simpl. by rewrite Hc.
Qed.

(** X19.  On a run without failure (the strategy returns with [error_free]
    true and the cleanup returns), [run] ends with exactly this: the cleanup
    decision logged with the answer yes, the cleanup, then the storing of
    the report on the directory as the cleanup left it, then the progress
    display switched off.  The outcome of [run] is that of
    [store_report]. *)
Theorem run_error_free (_run : M state unit) (st st2 st3 : state)
    (od4 od5 : OutputDirectory) (r : result unit) :
  startup (emit show_progress_enter st) = (Return tt, st2) →
  _run st2 = (Return tt, st3) →
  error_free (self st3) = true →
  OutputDirectory_cleanup (_output_dir (self st3)) = (Return tt, od4) →
  OutputDirectory_store_report od4 = (r, od5) →
  (run _run st).1 = r ∧
  _output_dir (self (run _run st).2) = od5 ∧
  log (run _run st).2 =
    log st3 ++ cleanup_decision true ++
    [called cleanup; called store_report; show_progress_exit].
Proof.
  intros Hs Hr Hf Hc Hst.
  rewrite CrawlerSpec.run_cases, Hs, Hr, CrawlerSpec.cleanup_cases, Hf.
  unfold call_output_dir, emit_all; simpl. rewrite Hc; simpl.
  rewrite Hst; simpl.
  repeat split. by rewrite <- !app_assoc.
Qed.

(** X20.  [run] switches the progress display off as the last thing it
    does, whatever the strategy does and however the run ends. *)
Theorem run_closes_progress (_run : M state unit) (st : state) :
  last (log (run _run st).2) = Some show_progress_exit.
Proof.
  unfold run, show_progress, with_context.
  match goal with |- context [let '(_, _) := ?b in _] => destruct b end.
  simpl. by rewrite last_snoc.
Qed.

(** X21.  A wrapper applied to a call whose first argument is not a crawler
    raises [RuntimeError] naming the decorator; the wrapped function is not
    called, so the state is as it was. *)
Theorem wrapper_not_a_method (f : wrapped) (args : list arg) (kw : kwargs)
    (st : state) :
  first_is_crawler args = false →
  noncritical f args kw st =
    (Raise (RuntimeError "@noncritical must only applied to Crawler methods"),
     st) ∧
  anoncritical f args kw st =
    (Raise (RuntimeError "@anoncritical must only applied to Crawler methods"),
     st).
Proof. unfold noncritical, anoncritical. by intros ->. Qed.

(** X22.  Wrapping twice with the same wrapper is wrapping once:
    [noncritical] around a function that [noncritical] has wrapped, and
    [anoncritical] around a coroutine function that [anoncritical] has
    wrapped, give the outcome and the state of the inner wrapper alone, for
    every call. *)
Theorem wrapper_idempotent (f : wrapped) (args : list arg) (kw : kwargs)
    (st : state) :
  noncritical (noncritical f) args kw st = noncritical f args kw st ∧
  anoncritical (anoncritical f) args kw st = anoncritical f args kw st.
Proof.
  destruct (first_is_crawler args) eqn:Hc.
  - split.
    + rewrite (CrawlerSpec.wrapper_cases noncritical (noncritical f))
        by auto.
      rewrite (CrawlerSpec.wrapper_cases noncritical f) by auto.
      destruct (f args kw st) as [[[]|e] st']; [done|].
      destruct (recoverable e) eqn:He; [done|]. by rewrite He.
    + rewrite (CrawlerSpec.wrapper_cases anoncritical (anoncritical f))
        by auto.
      rewrite (CrawlerSpec.wrapper_cases anoncritical f) by auto.
      destruct (f args kw st) as [[[]|e] st']; [done|].
      destruct (recoverable e) eqn:He; [done|]. by rewrite He.
  - unfold noncritical, anoncritical. by rewrite Hc.
Qed.

(** X23.  What comes out of a wrapped call on a crawler as an exception is
    never of the recoverable classes: it is the failure of the wrapped
    function itself, it is not recoverable, and [error_free] is false by
    then. *)
Theorem wrapper_raises_only_fatal (wrapper : wrapped → wrapped) (f : wrapped)
    (args : list arg) (kw : kwargs) (st : state) (e : exn) :
  wrapper = noncritical ∨ wrapper = anoncritical →
  first_is_crawler args = true →
  (wrapper f args kw st).1 = Raise e →
  recoverable e = false ∧
  (f args kw st).1 = Raise e ∧
  error_free (self (wrapper f args kw st).2) = false.
Proof.
  intros Hw Hc. rewrite CrawlerSpec.wrapper_cases by done.
  destruct (f args kw st) as [[[]|e'] st']; [done|].
  destruct (recoverable e') eqn:He; [done|].
  simpl. by intros [= <-].
Qed.

End Facts.

Import Example Scenarios.

Lemma init_limits_witness :
  match __init__ "crawl:demo" demo_section work with
  | Return c =>
      0 < download_limit (_limiter c) ≤ task_limit (_limiter c) ∧
      name c = "crawl:demo"
  | Raise _ => False
  end.
Proof.
  destruct (__init__ "crawl:demo" demo_section work) as [c|e] eqn:E.
  - destruct (init_limits _ _ _ _ E) as (Hn & _ & _ & Hr & _).
    split; [exact Hr | exact Hn].
  - vm_compute in E. discriminate E.
Defined.

Lemma crawl_spec_witness :
  (crawl lecture demo).1 =
    Return (Some (mkCrawlToken (_limiter (self demo)) lecture)) ∧
  self (crawl lecture demo).2 = self demo.
Proof.
  destruct (crawl_spec lecture demo) as (Hself & _ & Hkept).
  split; [|exact Hself].
  exact (proj1 (Hkept lecture eq_refl)).
Defined.

Lemma download_delegates_witness :
  (download lecture at_seven force replace demo).1 =
    Return (Some (mkDownloadToken (_limiter (self demo)) lecture lecture)) ∧
  report (_output_dir (self downloading)) = {[lecture]}.
Proof.
  destruct (download_delegates lecture lecture at_seven force replace demo
              eq_refl) as [Hod Hres].
  split; [exact (proj1 Hres)|].
  unfold downloading. rewrite Hod. reflexivity.
Defined.

Lemma download_failure_downgraded_witness :
  (anoncritical (λ _ _, download lecture at_seven force replace ≫= λ _, mret tt)
     [crawler_object] [] downloading).1 = Return tt ∧
  error_free
    (self (anoncritical
             (λ _ _, download lecture at_seven force replace ≫= λ _, mret tt)
             [crawler_object] [] downloading).2) = false.
Proof.
  rewrite (download_failure_downgraded anoncritical lecture lecture at_seven
             force replace (λ _, mret tt) [crawler_object] [] downloading
             (MarkDuplicateError lecture) (_output_dir (self downloading))
             (or_intror eq_refl) eq_refl eq_refl eq_refl eq_refl).
  split; reflexivity.
Defined.

Lemma run_aborts_witness :
  (run (H0 := broken_env) (mret tt) stuck).1 =
    Raise (OutputDirError "not a directory") ∧
  log (run (H0 := broken_env) (mret tt) stuck).2 =
    [show_progress_enter; called prepare; show_progress_exit].
Proof.
  destruct (run_aborts (H0 := broken_env) (mret tt) stuck
              (OutputDirError "not a directory")) as (Hp & _ & _).
  rewrite (Hp _ eq_refl). split; reflexivity.
Defined.

Lemma run_error_free_witness :
  log (run empty_run demo).2 =
    [show_progress_enter; called prepare; called load_prev_report] ++
    cleanup_decision true ++
    [called cleanup; called store_report; show_progress_exit] ∧
  files (_output_dir (self (run empty_run demo).2)) = ∅.
Proof.
  destruct (run_error_free empty_run demo
              (startup (emit show_progress_enter demo)).2
              (startup (emit show_progress_enter demo)).2
              (od_cleanup
                 (_output_dir
                    (self (startup (emit show_progress_enter demo)).2))).2
              (od_store_report
                 (od_cleanup
                    (_output_dir
                       (self (startup (emit show_progress_enter demo)).2))).2).2
              (Return tt) eq_refl eq_refl eq_refl eq_refl eq_refl)
    as (_ & Hod & Hlog).
  split; [exact Hlog|]. rewrite Hod. reflexivity.
Defined.

Lemma wrapper_not_a_method_witness :
  noncritical page_missing [other_object "a report"] [] demo =
    (Raise (RuntimeError "@noncritical must only applied to Crawler methods"),
     demo).
Proof.
  exact (proj1 (wrapper_not_a_method page_missing [other_object "a report"]
                  [] demo eq_refl)).
Defined.

Lemma wrapper_raises_only_fatal_witness :
  recoverable (CrawlError "login failed") = false ∧
  error_free (self (noncritical login_failed [crawler_object] [] demo).2) =
    false.
Proof.
  destruct (wrapper_raises_only_fatal noncritical login_failed
              [crawler_object] [] demo (CrawlError "login failed")
              (or_introl eq_refl) eq_refl eq_refl) as (Hrec & _ & Hflag).
  split; [exact Hrec | exact Hflag].
Defined.

End CrawlerExtra.
